(** * Multimodal product discovery: the React front end, in Rocq

    A shallow embedding of the code under [frontend/src]: the search form
    ([components/SearchInput.jsx]), the image drop zone
    ([components/ImageUpload.jsx]), the voice recorder
    ([components/VoiceRecorder.jsx]), the product card
    ([components/ProductCard.jsx]), the page that wires them to the API
    ([pages/HomePage.jsx]) and the axios client ([services/api.js]).

    Event handlers are functions from the component's props and state to a
    trace of effects (callbacks invoked, state setters called, requests
    posted); the network is an explicit parameter of the handlers that await
    it.  The orchestrator described by the specification (intent
    classification, tool execution, merge of the tool results) is a Python
    back end that is not part of the sources at hand; module [Orchestrator]
    stands for it and is modelled from the specification. *)

From Stdlib Require Import ZArith NArith QArith Qround String Ascii List Lia Bool.
From Stdlib Require Import DecimalString.
From Stdlib Require DecimalPos DecimalZ.
From Stdlib Require Import Lqa.
From stdpp Require Import gmap strings list sorting.
Import ListNotations.

Set Warnings "-register-all".

Local Open Scope string_scope.
Local Open Scope list_scope.
Local Open Scope Z_scope.

(* ===================================================================== *)
(** ** JavaScript strings *)
(* ===================================================================== *)

Module JS.

(** A JavaScript string is a sequence of UTF-16 code units. *)
Abbreviation codeunit := N.
Abbreviation jsstring := (list codeunit).

(** An ASCII literal of the source, as a JavaScript string. *)
Definition lit (s : string) : jsstring :=
  List.map N_of_ascii (list_ascii_of_string s).

(** [ToBoolean] on a string: only the empty string is falsy. *)
Definition truthy (s : jsstring) : bool :=
  match s with [] => false | _ :: _ => true end.

(** ECMAScript [WhiteSpace] and [LineTerminator] code points, the characters
    [String.prototype.trim] strips. *)
Definition is_whitespace (c : codeunit) : bool :=
  ((c =? 0x09) || (c =? 0x0A) || (c =? 0x0B) || (c =? 0x0C) || (c =? 0x0D)
   || (c =? 0x20) || (c =? 0xA0) || (c =? 0x1680)
   || ((0x2000 <=? c) && (c <=? 0x200A))
   || (c =? 0x2028) || (c =? 0x2029) || (c =? 0x202F) || (c =? 0x205F)
   || (c =? 0x3000) || (c =? 0xFEFF))%N.

Fixpoint trimStart (s : jsstring) : jsstring :=
  match s with
  | [] => []
  | c :: s' => if is_whitespace c then trimStart s' else s
  end.

Definition trimEnd (s : jsstring) : jsstring :=
  rev (trimStart (rev s)).

(** [s.trim()] *)
Definition trim (s : jsstring) : jsstring := trimEnd (trimStart s).

(** What "leading and trailing whitespace removed" means, stated without
    reference to [trim]: [t] is [s] minus a whitespace-only prefix and a
    whitespace-only suffix, and [t] itself neither starts nor ends with a
    whitespace character. *)
Definition whitespace (c : codeunit) : Prop := is_whitespace c = true.

Definition no_ws_at_ends (t : jsstring) : Prop :=
  (forall c t', t = c :: t' -> is_whitespace c = false) /\
  (forall c t', t = t' ++ [c] -> is_whitespace c = false).

Definition Trimmed (s t : jsstring) : Prop :=
  exists pre post,
    s = pre ++ t ++ post /\
    Forall whitespace pre /\
    Forall whitespace post /\
    no_ws_at_ends t.

End JS.

Import JS.

(* ===================================================================== *)
(** ** components/SearchInput.jsx *)
(* ===================================================================== *)

Module SearchInput.

(** What [handleSubmit] does to the outside world. *)
Inductive effect :=
| PreventDefault
| OnSearch (q : jsstring).

Record props := { loading : bool }.
Record state := { query : jsstring }.

(** [handleSubmit]:
    e.preventDefault(); if (query.trim() && !loading) onSearch(query.trim()) *)
Definition handleSubmit (p : props) (st : state) : list effect :=
  PreventDefault ::
  (if truthy (trim (query st)) && negb (loading p)
   then [OnSearch (trim (query st))]
   else []).

(** The submit button: disabled={loading || !query.trim()} *)
Definition button_disabled (p : props) (st : state) : bool :=
  loading p || negb (truthy (trim (query st))).

(** The text input: disabled={loading} *)
Definition input_disabled (p : props) : bool := loading p.

(** The queries handed to the [onSearch] prop by a trace. *)
Definition searches (tr : list effect) : list jsstring :=
  omap (fun e => match e with OnSearch q => Some q | _ => None end) tr.

End SearchInput.

(* ===================================================================== *)
(** ** Values that cross the wire *)
(* ===================================================================== *)

(** JSON-like values: request bodies and query parameters. *)
Inductive json :=
| JNull
| JNum (n : Z)
| JStr (s : jsstring)
| JObj (fields : list (string * json)).

(** A [Blob]: raw bytes tagged with a MIME type. *)
Record Blob := { blob_data : list Byte.byte; blob_type : jsstring }.

Definition blob_size (b : Blob) : Z := Z.of_nat (length (blob_data b)).

(** A [File] is a [Blob] with a name. *)
Record File := { file_name : jsstring; file_blob : Blob }.

Definition file_size (f : File) : Z := blob_size (file_blob f).
Definition file_type (f : File) : jsstring := blob_type (file_blob f).

(** [new Blob(parts, { type })]: the bytes of the parts, in order, under the
    type given in the options; the types of the parts play no role. *)
Definition new_Blob (parts : list Blob) (type : jsstring) : Blob :=
  {| blob_data := List.concat (List.map blob_data parts); blob_type := type |}.

(** Decimal rendering of a number that is an integer, as [String(n)] and
    template literals produce it. *)
Definition string_of_Z (n : Z) : jsstring :=
  lit (DecimalString.NilZero.string_of_int (Z.to_int n)).

(** A field of a [FormData]. *)
Inductive form_value :=
| FText (s : jsstring)
| FFile (f : File).

Definition FormData := list (string * form_value).

(** [formData.append(name, value)] with a string or number already turned
    into a string. *)
Definition append_text (fd : FormData) (name : string) (s : jsstring) : FormData :=
  fd ++ [(name, FText s)].

(** [formData.append(name, file)]: a [File] keeps its own name. *)
Definition append_file (fd : FormData) (name : string) (f : File) : FormData :=
  fd ++ [(name, FFile f)].

(** [formData.append(name, blob, filename)]: the blob is wrapped in a [File]
    called [filename]; the type stays the blob's. *)
Definition append_blob (fd : FormData) (name : string) (b : Blob)
    (filename : jsstring) : FormData :=
  fd ++ [(name, FFile {| file_name := filename; file_blob := b |})].

(* ===================================================================== *)
(** ** services/api.js *)
(* ===================================================================== *)

Module Api.

Inductive body :=
| NoBody
| JsonBody (j : json)
| FormBody (fd : FormData).

(** An axios request configuration, restricted to the fields the module
    sets. [timeout] is in milliseconds; 0 means no timeout. *)
Record config := {
  method  : string;
  baseURL : jsstring;
  url     : jsstring;
  headers : gmap string jsstring;
  params  : list (string * json);
  data    : body;
  timeout : Z
}.

(** const API_BASE_URL = import.meta.env.VITE_API_URL || 'http://localhost:8000' *)
Definition API_BASE_URL (VITE_API_URL : option jsstring) : jsstring :=
  match VITE_API_URL with
  | Some u => if truthy u then u else lit "http://localhost:8000"
  | None => lit "http://localhost:8000"
  end.

(** The instance defaults: axios.create({ baseURL, headers, timeout: 30000 }) *)
Definition default_headers : gmap string jsstring :=
  {[ "Content-Type" := lit "application/json" ]}.

Definition default_timeout : Z := 30000.

(** What a call site may override: the module only ever passes [headers]
    and [params]. *)
Record overrides := {
  o_headers : gmap string jsstring;
  o_params  : list (string * json);
  o_timeout : option Z
}.

Definition no_overrides : overrides :=
  {| o_headers := ∅; o_params := []; o_timeout := None |}.

(** axios merges the call's configuration over the instance defaults:
    headers key by key, scalar fields by "call wins if given". *)
Definition mergeConfig (env : option jsstring) (m : string) (u : jsstring)
    (d : body) (o : overrides) : config :=
  {| method  := m;
     baseURL := API_BASE_URL env;
     url     := u;
     headers := o_headers o ∪ default_headers;
     params  := o_params o;
     data    := d;
     timeout := default (default_timeout) (o_timeout o) |}.

(** [localStorage]: a string-keyed store of strings. *)
Abbreviation Storage := (gmap string jsstring).

(** The request interceptor:
      const sessionId = localStorage.getItem('session_id');
      if (sessionId) config.headers['X-Session-ID'] = sessionId;
      return config; *)
Definition request_interceptor (localStorage : Storage) (c : config) : config :=
  match localStorage !! "session_id" with
  | Some sessionId =>
      if truthy sessionId
      then {| method := method c; baseURL := baseURL c; url := url c;
              headers := <["X-Session-ID" := sessionId]> (headers c);
              params := params c; data := data c; timeout := timeout c |}
      else c
  | None => c
  end.

(** *** The transport *)

Record response := { status : Z; resp_data : json }.

Inductive error :=
| TimeoutError (ms : Z)          (* "timeout of <ms>ms exceeded" *)
| NetworkError                   (* request made, no response *)
| StatusError (r : response).    (* response outside 2xx *)

Inductive settled :=
| Resolved (r : response)
| Rejected (e : error).

(** How the server behaves for one request: it answers after [latency]
    milliseconds, drops the connection after that long, or never does
    anything. *)
Inductive reply :=
| Answers (latency : Z) (r : response)
| Drops (latency : Z)
| Silent.

(** axios (a dependency of the front end) resolves a response whose status
    is 2xx and rejects any other. *)
Definition validateStatus (s : Z) : bool := (200 <=? s) && (s <? 300).

Definition settle_reply (r : response) : settled :=
  if validateStatus (status r) then Resolved r else Rejected (StatusError r).

(** Whether something that happens [latency] milliseconds after the request
    was sent comes before the request's timer fires. *)
Definition in_time (c : config) (latency : Z) : bool :=
  (timeout c =? 0) || (latency <=? timeout c).

(** The adapter of axios, as its [timeout] option is documented: the
    request is aborted with a timeout error once [timeout c] milliseconds
    have passed, unless the timeout is 0; whatever happens first settles the
    promise. [None] is a promise that stays pending for ever. *)
Definition adapter (c : config) (srv : reply) : option settled :=
  match srv with
  | Answers l r =>
      if in_time c l then Some (settle_reply r)
      else Some (Rejected (TimeoutError (timeout c)))
  | Drops l =>
      if in_time c l then Some (Rejected NetworkError)
      else Some (Rejected (TimeoutError (timeout c)))
  | Silent =>
      if timeout c =? 0 then None
      else Some (Rejected (TimeoutError (timeout c)))
  end.

(** The browser environment a call runs in. *)
Record world := {
  VITE_API_URL : option jsstring;
  localStorage : Storage;
  server       : config -> reply
}.

(** What a call through the client leaves behind. *)
Inductive event :=
| Sent (c : config)
| ConsoleError (label : string).

(** The response interceptor logs and re-rejects. *)
Definition response_interceptor (s : settled) : list event :=
  match s with
  | Resolved _ => []
  | Rejected (StatusError _) => [ConsoleError "API Error:"]
  | Rejected _ => [ConsoleError "Network Error:"]
  end.

(** One request through the instance: merge, intercept, send, intercept. *)
Definition request (w : world) (m : string) (u : jsstring) (d : body)
    (o : overrides) : list event * option settled :=
  let c := request_interceptor (localStorage w) (mergeConfig (VITE_API_URL w) m u d o) in
  let s := adapter c (server w c) in
  (Sent c :: match s with Some s' => response_interceptor s' | None => [] end, s).

Definition multipart : overrides :=
  {| o_headers := {[ "Content-Type" := lit "multipart/form-data" ]};
     o_params := []; o_timeout := None |}.

(** [response.data] of an awaited call: the data on success, the thrown
    error otherwise. *)
Definition response_data (s : settled) : json + error :=
  match s with
  | Resolved r => inl (resp_data r)
  | Rejected e => inr e
  end.

Definition call (w : world) (m : string) (u : jsstring) (d : body)
    (o : overrides) : list event * option (json + error) :=
  let '(ev, s) := request w m u d o in (ev, response_data <$> s).

(** Default parameter values apply when the argument is left out. *)
Definition queryText (w : world) (queryText : jsstring)
    (filters : option json) (maxResults : option Z) :=
  call w "post" (lit "/api/query/text")
    (JsonBody (JObj [ ("query_text", JStr queryText);
                      ("query_type", JStr (lit "text"));
                      ("filters", default (JObj []) filters);
                      ("max_results", JNum (default 10 maxResults)) ]))
    no_overrides.

Definition queryImage (w : world) (imageFile : File)
    (queryText : option jsstring) (maxResults : option Z) :=
  let fd := append_file [] "image" imageFile in
  let fd := match queryText with
            | Some q => if truthy q then append_text fd "query_text" q else fd
            | None => fd
            end in
  let fd := append_text fd "max_results" (string_of_Z (default 10 maxResults)) in
  call w "post" (lit "/api/query/image") (FormBody fd) multipart.

Definition queryVoice (w : world) (audioBlob : Blob) (maxResults : option Z) :=
  let fd := append_blob [] "audio" audioBlob (lit "recording.wav") in
  let fd := append_text fd "max_results" (string_of_Z (default 10 maxResults)) in
  call w "post" (lit "/api/query/voice") (FormBody fd) multipart.

(** The argument of [queryMultimodal]: every field may be missing. *)
Record multimodal := {
  mm_queryText  : option jsstring;
  mm_imageFile  : option File;
  mm_audioBlob  : option Blob;
  mm_maxResults : option Z
}.

Definition queryMultimodal (w : world) (d : multimodal) :=
  let fd := match mm_queryText d with
            | Some q => if truthy q then append_text [] "query_text" q else []
            | None => []
            end in
  let fd := match mm_imageFile d with
            | Some f => append_file fd "image" f
            | None => fd
            end in
  let fd := match mm_audioBlob d with
            | Some b => append_blob fd "audio" b (lit "recording.wav")
            | None => fd
            end in
  let n := match mm_maxResults d with
           | Some n => if n =? 0 then 10 else n
           | None => 10
           end in
  let fd := append_text fd "max_results" (string_of_Z n) in
  call w "post" (lit "/api/query/multimodal") (FormBody fd) multipart.

Definition with_params (ps : list (string * json)) : overrides :=
  {| o_headers := ∅; o_params := ps; o_timeout := None |}.

Definition getProduct (w : world) (productId : jsstring) :=
  call w "get" (lit "/api/products/" ++ productId) NoBody no_overrides.

Definition getProductReviews (w : world) (productId : jsstring) (limit : option Z) :=
  call w "get" (lit "/api/products/" ++ productId ++ lit "/reviews") NoBody
    (with_params [("limit", JNum (default 10 limit))]).

Definition getProductPrices (w : world) (productId : jsstring) :=
  call w "get" (lit "/api/products/" ++ productId ++ lit "/prices") NoBody no_overrides.

Definition opt_str (o : option jsstring) : json :=
  match o with Some s => JStr s | None => JNull end.

Definition getRecommendations (w : world) (userId sessionId : option jsstring)
    (limit : option Z) :=
  call w "get" (lit "/api/recommendations") NoBody
    (with_params [("user_id", opt_str userId); ("session_id", opt_str sessionId);
                  ("limit", JNum (default 10 limit))]).

Definition healthCheck (w : world) :=
  call w "get" (lit "/health") NoBody no_overrides.

(** The requests a trace of events contains. *)
Definition sent (evs : list event) : list config :=
  omap (fun e => match e with Sent c => Some c | _ => None end) evs.

(** Every function the module exports, with its arguments. *)
Inductive api_call :=
| QueryText (queryText : jsstring) (filters : option json) (maxResults : option Z)
| QueryImage (imageFile : File) (queryText : option jsstring) (maxResults : option Z)
| QueryVoice (audioBlob : Blob) (maxResults : option Z)
| QueryMultimodal (d : multimodal)
| GetProduct (productId : jsstring)
| GetProductReviews (productId : jsstring) (limit : option Z)
| GetProductPrices (productId : jsstring)
| GetRecommendations (userId sessionId : option jsstring) (limit : option Z)
| HealthCheck.

Definition perform (w : world) (c : api_call)
    : list event * option (json + error) :=
  match c with
  | QueryText q f n => queryText w q f n
  | QueryImage i q n => queryImage w i q n
  | QueryVoice a n => queryVoice w a n
  | QueryMultimodal d => queryMultimodal w d
  | GetProduct i => getProduct w i
  | GetProductReviews i l => getProductReviews w i l
  | GetProductPrices i => getProductPrices w i
  | GetRecommendations u s l => getRecommendations w u s l
  | HealthCheck => healthCheck w
  end.

(** Whether the server is done with a request within [ms] milliseconds. *)
Definition completes_within (ms : Z) (r : reply) : bool :=
  match r with
  | Answers l _ | Drops l => l <=? ms
  | Silent => false
  end.

(** The session header of a request. *)
Definition session_header (c : config) : option jsstring :=
  headers c !! "X-Session-ID".

(** "The header is attached if and only if a session_id value is present in
    localStorage": on a request that does not carry the header yet. *)
Definition attached_iff_present (ls : Storage) (c : config) : Prop :=
  is_Some (session_header (request_interceptor ls c)) <-> is_Some (ls !! "session_id").

(** The same with "present" read as the code reads it: a value that is not
    the empty string. *)
Definition attached_iff_nonempty (ls : Storage) (c : config) : Prop :=
  is_Some (session_header (request_interceptor ls c)) <->
  exists sid, ls !! "session_id" = Some sid /\ sid <> [].

(** Whether a function uploads a form (and says so in its own headers), and
    whether it only reads. *)
Definition uploads_form (c : api_call) : bool :=
  match c with
  | QueryImage _ _ _ | QueryVoice _ _ | QueryMultimodal _ => true
  | _ => false
  end.

Definition posts (c : api_call) : bool :=
  match c with
  | QueryText _ _ _ | QueryImage _ _ _ | QueryVoice _ _ | QueryMultimodal _ => true
  | _ => false
  end.

Definition content_type (c : config) : option jsstring :=
  headers c !! "Content-Type".

(** The text fields of a form, by name. *)
Definition form_texts (name : string) (fd : FormData) : list jsstring :=
  omap (fun e => match e with
                 | (n, FText t) => if String.eqb n name then Some t else None
                 | _ => None
                 end) fd.

(** The files of a form, by name. *)
Definition form_files (name : string) (fd : FormData) : list File :=
  omap (fun e => match e with
                 | (n, FFile f) => if String.eqb n name then Some f else None
                 | _ => None
                 end) fd.

(** The response a request ends with when the server answers it in time
    with a 2xx status; nothing otherwise. *)
Definition good_answer (c : config) (srv : reply) : option response :=
  match srv with
  | Answers l r => if in_time c l && validateStatus (status r) then Some r else None
  | _ => None
  end.

End Api.

(* ===================================================================== *)
(** ** components/VoiceRecorder.jsx *)
(* ===================================================================== *)

Module VoiceRecorder.

(** [chunksRef.current] *)
Definition chunks := list Blob.

(** mediaRecorder.ondataavailable:
      if (e.data.size > 0) chunksRef.current.push(e.data) *)
Definition ondataavailable (data : Blob) (cs : chunks) : chunks :=
  if blob_size data >? 0 then cs ++ [data] else cs.

(** mediaRecorder.onstop builds the blob handed to [onRecordingComplete]:
      new Blob(chunksRef.current, { type: 'audio/wav' }) *)
Definition onstop (cs : chunks) : Blob :=
  new_Blob cs (lit "audio/wav").

(** One recording: [startRecording] empties the chunks, the recorder then
    delivers its data events (in whatever container the browser encodes),
    and the stop event closes the recording. *)
Definition recording (delivered : list Blob) : Blob :=
  onstop (fold_left (fun cs d => ondataavailable d cs) delivered []).

(** [s.padStart(2, '0')] *)
Definition padStart2 (s : jsstring) : jsstring :=
  match s with
  | [] => lit "00"
  | [c] => [0x30%N; c]
  | _ => s
  end.

(** The character of a decimal digit. *)
Definition digit (d : Z) : codeunit := (0x30 + Z.to_N d)%N.

(** formatTime:
      const mins = Math.floor(seconds / 60)
      const secs = seconds % 60
      return `${mins}:${secs.toString().padStart(2, '0')}` *)
Definition formatTime (seconds : Z) : jsstring :=
  string_of_Z (seconds / 60) ++ lit ":" ++ padStart2 (string_of_Z (Z.rem seconds 60)).

(** The component: its two pieces of state, the chunks it collects, whether
    it holds a recorder, and whether the interval it set is still running. *)
Record state := {
  isRecording   : bool;
  recordingTime : Z;
  mediaRecorder : bool;
  chunksRef     : chunks;
  interval      : bool
}.

Definition idle : state :=
  {| isRecording := false; recordingTime := 0; mediaRecorder := false;
     chunksRef := []; interval := false |}.

Inductive effect :=
| GetUserMedia
| RecorderStart
| RecorderStop
| SetInterval
| ClearInterval
| OnRecordingComplete (b : Blob)
| StopTracks
| ConsoleError
| Alert (msg : string).

(** startRecording; [granted] is whether getUserMedia resolves. *)
Definition startRecording (granted : bool) (st : state) : state * list effect :=
  if granted
  then ({| isRecording := true; recordingTime := recordingTime st;
           mediaRecorder := true; chunksRef := []; interval := true |},
        [GetUserMedia; RecorderStart; SetInterval])
  else (st, [GetUserMedia; ConsoleError;
             Alert "Could not access microphone. Please check permissions."]).

(** stopRecording:
      if (mediaRecorderRef.current && isRecording) {
        mediaRecorderRef.current.stop(); setIsRecording(false)
        clearInterval(timerRef.current); setRecordingTime(0) } *)
Definition stopRecording (st : state) : state * list effect :=
  if mediaRecorder st && isRecording st
  then ({| isRecording := false; recordingTime := 0;
           mediaRecorder := mediaRecorder st; chunksRef := chunksRef st;
           interval := false |},
        [RecorderStop; ClearInterval])
  else (st, []).

(** What reaches the component. *)
Inductive input :=
| Click (granted : bool)        (* the button; onClick={isRecording ? stop : start} *)
| Tick                          (* the interval fires *)
| DataAvailable (data : Blob)   (* the recorder delivers data *)
| Stopped.                      (* the recorder's stop event *)

Definition step (i : input) (st : state) : state * list effect :=
  match i with
  | Click granted =>
      if isRecording st then stopRecording st else startRecording granted st
  | Tick =>
      if interval st
      then ({| isRecording := isRecording st; recordingTime := recordingTime st + 1;
               mediaRecorder := mediaRecorder st; chunksRef := chunksRef st;
               interval := interval st |}, [])
      else (st, [])
  | DataAvailable data =>
      if mediaRecorder st
      then ({| isRecording := isRecording st; recordingTime := recordingTime st;
               mediaRecorder := mediaRecorder st;
               chunksRef := ondataavailable data (chunksRef st);
               interval := interval st |}, [])
      else (st, [])
  | Stopped =>
      if mediaRecorder st
      then (st, [OnRecordingComplete (onstop (chunksRef st)); StopTracks])
      else (st, [])
  end.

Fixpoint run (inputs : list input) (st : state) : state * list effect :=
  match inputs with
  | [] => (st, [])
  | i :: rest =>
      let '(st1, tr1) := step i st in
      let '(st2, tr2) := run rest st1 in
      (st2, tr1 ++ tr2)
  end.

(** The time line under the button: {isRecording && formatTime(recordingTime)} *)
Definition shown_time (st : state) : option jsstring :=
  if isRecording st then Some (formatTime (recordingTime st)) else None.

(** The blobs a trace hands to [onRecordingComplete]. *)
Definition completed (tr : list effect) : list Blob :=
  omap (fun e => match e with OnRecordingComplete b => Some b | _ => None end) tr.

(** What happens while a recording runs: ticks and data. *)
Definition ambient (i : input) : bool :=
  match i with Tick | DataAvailable _ => true | _ => false end.

Definition ticks (inputs : list input) : Z :=
  Z.of_nat (length (List.filter (fun i => match i with Tick => true | _ => false end) inputs)).

Definition delivered (inputs : list input) : list Blob :=
  omap (fun i => match i with DataAvailable d => Some d | _ => None end) inputs.

End VoiceRecorder.

(* ===================================================================== *)
(** ** react-dropzone, as ImageUpload configures it *)
(* ===================================================================== *)

(** react-dropzone is a dependency of the front end, not code of the
    repository. [useDropzone] sorts the files of an event into the two
    arguments of [onDrop]; the rules below are the library's, for the
    options the component passes: accept = { 'image/*': ['.jpeg', '.jpg',
    '.png', '.gif', '.webp'] }, maxSize, multiple = false.

    The files of an event are read by file-selector ([fromEvent]), another
    dependency, before react-dropzone sees them. *)
Module Dropzone.

(** [toLowerCase], exact wherever the result is ASCII: the letters A to Z
    and the Kelvin sign lower to ASCII letters; every other character
    outside ASCII lowers to characters of which one at least is outside
    ASCII, and so takes part in no match with the ASCII patterns and keys
    below. *)
Definition lower (c : codeunit) : codeunit :=
  (if (0x41 <=? c) && (c <=? 0x5A) then c + 0x20
   else if c =? 0x212A then 0x6B
   else c)%N.

Definition toLowerCase (s : jsstring) : jsstring := List.map lower s.

Fixpoint startsWith (p s : jsstring) : bool :=
  match p, s with
  | [], _ => true
  | _ :: _, [] => false
  | a :: p', b :: s' => (a =? b)%N && startsWith p' s'
  end.

Definition endsWith (s suffix : jsstring) : bool :=
  startsWith (rev suffix) (rev s).

(** mimeType.replace(/\/.*$/, ''): the part before the first slash. *)
Fixpoint baseMimeType (s : jsstring) : jsstring :=
  match s with
  | [] => []
  | c :: s' => if (c =? 0x2F)%N then [] else c :: baseMimeType s'
  end.

Definition jsstring_eqb (a b : jsstring) : bool :=
  bool_decide (a = b).

Definition accepted_extensions : list jsstring :=
  [lit ".jpeg"; lit ".jpg"; lit ".png"; lit ".gif"; lit ".webp"].

(** attr-accept's [accepts(file, accept)] for the accept option,
    "image/*,.jpeg,.jpg,.png,.gif,.webp" as an accept attribute: a file
    passes when its MIME type is an image type or its name ends in one of
    the extensions. *)
Definition accepts (f : File) : bool :=
  jsstring_eqb (baseMimeType (toLowerCase (file_type f))) (lit "image")
  || existsb (endsWith (toLowerCase (file_name f))) accepted_extensions.

(** file.type === "application/x-moz-file" || accepts(file, accept): the
    type Firefox gives to some dragged files is let through whatever the
    accept option says. *)
Definition fileAccepted (f : File) : bool :=
  jsstring_eqb (file_type f) (lit "application/x-moz-file") || accepts f.

(** minSize is left at its default 0. *)
Definition fileMatchSize (maxSize : Z) (f : File) : bool :=
  negb (file_size f >? maxSize).

(** An entry of [rejectedFiles]; [onDrop] reads only [file]. *)
Record rejection := { file : File; errors : list string }.

Definition rejection_errors (maxSize : Z) (f : File) : list string :=
  (if fileAccepted f then [] else ["file-invalid-type"]) ++
  (if fileMatchSize maxSize f then [] else ["file-too-large"]).

Definition passes (maxSize : Z) (f : File) : bool :=
  fileAccepted f && fileMatchSize maxSize f.

(** [setFiles]: the two lists [onDrop] is called with, for the files that
    file-selector hands over ([fromEvent] below). With multiple = false,
    more than one acceptable file rejects them all. *)
Definition sort_files (maxSize : Z) (files : list File)
    : list File * list rejection :=
  let acceptedFiles := List.filter (passes maxSize) files in
  let fileRejections :=
    List.map (fun f => {| file := f; errors := rejection_errors maxSize f |})
      (List.filter (fun f => negb (passes maxSize f)) files) in
  if (1 <? length acceptedFiles)%nat
  then ([], fileRejections ++
            List.map (fun f => {| file := f; errors := ["too-many-files"] |})
              acceptedFiles)
  else (acceptedFiles, fileRejections).

(** Where the files of an event come from: a drop on the zone, or the file
    dialog that a click on the zone opens. *)
Inductive origin := DragAndDrop | FileDialog.

(** file-selector leaves out the thumbnail caches of macOS and Windows,
    by their exact names, from the files of a drop. *)
Definition FILES_TO_IGNORE : list jsstring := [lit ".DS_Store"; lit "Thumbs.db"].

Definition noIgnoredFiles (files : list File) : list File :=
  List.filter (fun f => negb (existsb (jsstring_eqb (file_name f)) FILES_TO_IGNORE))
    files.

(** name.split('.').pop(): what follows the last dot of a name that has
    one. *)
Fixpoint after_last_dot (reversed acc : jsstring) : option jsstring :=
  match reversed with
  | [] => None
  | c :: r => if (c =? 0x2E)%N then Some acc else after_last_dot r (c :: acc)
  end.

Definition extension (name : jsstring) : option jsstring :=
  after_last_dot (rev name) [].

Section FileSelector.

(** file-selector's table COMMON_MIME_TYPES, from an extension in lower
    case to the MIME type it stands for. Its entries are the library's;
    nothing below depends on what they are. *)
Variable COMMON_MIME_TYPES : jsstring -> option jsstring.

(** [withMimeType]: a file that comes without a type gets the type the
    table has for its extension, if any. *)
Definition withMimeType (f : File) : File :=
  match file_type f, extension (file_name f) with
  | [], Some ext =>
      match COMMON_MIME_TYPES (toLowerCase ext) with
      | Some type =>
          if truthy type
          then {| file_name := file_name f;
                  file_blob := {| blob_data := blob_data (file_blob f);
                                  blob_type := type |} |}
          else f
      | None => f
      end
  | _, _ => f
  end.

(** file-selector's [fromEvent]: the files that reach [setFiles], given the
    files that the browser attaches to the event (for a dropped folder, the
    files in it). Every file goes through [withMimeType]; only the files of
    a drop are filtered. *)
Definition fromEvent (from : origin) (files : list File) : list File :=
  match from with
  | DragAndDrop => noIgnoredFiles (List.map withMimeType files)
  | FileDialog => List.map withMimeType files
  end.

End FileSelector.

End Dropzone.

(* ===================================================================== *)
(** ** components/ImageUpload.jsx *)
(* ===================================================================== *)

Module ImageUpload.

(** The [maxSize] prop, a whole number of bytes (below 2^53 in absolute
    value, as a JavaScript number holds it exactly); left out, it is
    5242880. *)
Record props := { maxSize_prop : option Z }.

Definition maxSize (p : props) : Z := default 5242880 (maxSize_prop p).

(** [useState]: the data URL shown as preview, and the error line. *)
Record state := { preview : option jsstring; error : option jsstring }.

Inductive effect :=
| ReadAsDataURL (f : File)
| OnImageSelect (f : option File).

Definition setError (e : option jsstring) (st : state) : state :=
  {| preview := preview st; error := e |}.

Definition setPreview (pv : option jsstring) (st : state) : state :=
  {| preview := pv; error := error st |}.

(** (x).toFixed(0) for x = n / 1024 / 1024 with n an integer: the whole
    number nearest to x, the one further from zero on a tie, written with
    the sign of x, so that a negative x that rounds to zero gives "-0". *)
Definition megabytes (n : Z) : jsstring :=
  if n <? 0
  then lit "-" ++ string_of_Z ((2 * (- n) + 1048576) / 2097152)
  else string_of_Z ((2 * n + 1048576) / 2097152).

Definition too_large_message (p : props) : jsstring :=
  lit "File too large. Maximum size is " ++ megabytes (maxSize p) ++ lit "MB".

Definition invalid_type_message : jsstring :=
  lit "Invalid file type. Please upload an image.".

(** [onDrop(acceptedFiles, rejectedFiles)] *)
Definition onDrop (p : props) (acceptedFiles : list File)
    (rejectedFiles : list Dropzone.rejection) (st : state)
    : state * list effect :=
  let st := setError None st in
  match rejectedFiles with
  | rejection :: _ =>
      if file_size (Dropzone.file rejection) >? maxSize p
      then (setError (Some (too_large_message p)) st, [])
      else (setError (Some invalid_type_message) st, [])
  | [] =>
      match acceptedFiles with
      | file :: _ => (st, [ReadAsDataURL file; OnImageSelect (Some file)])
      | [] => (st, [])
      end
  end.

(** reader.onload = () => setPreview(reader.result) *)
Definition reader_onload (result : jsstring) (st : state) : state :=
  setPreview (Some result) st.

Definition clearImage (st : state) : state * list effect :=
  (setError None (setPreview None st), [OnImageSelect None]).

(** What the library does with the files that file-selector hands over: it
    sorts them, then calls [onDrop]. *)
Definition drop (p : props) (files : list File) (st : state)
    : state * list effect :=
  let '(acceptedFiles, rejectedFiles) := Dropzone.sort_files (maxSize p) files in
  onDrop p acceptedFiles rejectedFiles st.

(** What happens to the component: an event that carries files reaches the
    zone, as a drop or from the file dialog (a drop of anything else is not
    passed on by the library); a [FileReader] started by [onDrop] finishes
    reading (its load event, with the data URL read); the clear button is
    clicked. The zone is on the screen while there is no preview, the
    clear button while there is one. *)
Inductive input :=
| Files (from : Dropzone.origin) (files : list File)
| Load (result : jsstring)
| Clear.

(** One input handled. [types] is file-selector's table of MIME types. *)
Definition step (types : jsstring -> option jsstring) (p : props) (i : input)
    (st : state) : state * list effect :=
  match i with
  | Files from files => drop p (Dropzone.fromEvent types from files) st
  | Load result => (reader_onload result st, [])
  | Clear => clearImage st
  end.

(** The files a trace hands to [onImageSelect]. *)
Definition selected (tr : list effect) : list (option File) :=
  omap (fun e => match e with OnImageSelect f => Some f | _ => None end) tr.

(** "Input validation fails with an error message, the file is not passed
    on as a selected image, and no other side effect occurs (the existing
    preview state is unchanged)." *)
Definition validation_fails (types : jsstring -> option jsstring) (p : props)
    (i : input) (st : state) : Prop :=
  error (fst (step types p i st)) <> None /\
  snd (step types p i st) = [] /\
  preview (fst (step types p i st)) = preview st.

End ImageUpload.

(* ===================================================================== *)
(** ** pages/HomePage.jsx *)
(* ===================================================================== *)

Module HomePage.

Inductive effect :=
| PreventDefault
| SetLoading (b : bool)
| Client (e : Api.event)
| Navigate (path : string) (results : json) (query : json)
| ToastError (msg : string)
| LogError (e : Api.error)
| LogTypeError.                     (* console.error of a TypeError thrown in the handler *)

(** [results.message] on a response that is not null: the field of an
    object, undefined (here [JNull]) on a number or a string. *)
Fixpoint assoc (k : string) (fs : list (string * json)) : json :=
  match fs with
  | [] => JNull
  | (k', v) :: fs' => if String.eqb k k' then v else assoc k fs'
  end.

Definition field (k : string) (j : json) : json :=
  match j with JObj fs => assoc k fs | _ => JNull end.

(** [results.message] as the voice handler evaluates it: reading a property
    of null throws a TypeError. *)
Definition message_of (results : json) : option json :=
  match results with
  | JNull => None
  | _ => Some (field "message" results)
  end.

(** The shape the three handlers share:
      setLoading(true)
      try { const results = await <call>
            navigate('/search', { state: { results, query: <query> } }) }
      catch (error) { toast.error(<msg>); console.error(error) }
      finally { setLoading(false) }
    [query results] is [None] when evaluating <query> throws: the catch
    block then runs as for a failed call, and [navigate] is not reached.
    A call that never settles leaves the handler suspended at the await. *)
Definition awaiting (r : list Api.event * option (json + Api.error))
    (query : json -> option json) (msg : string) : list effect :=
  SetLoading true :: List.map Client (fst r) ++
  match snd r with
  | Some (inl results) =>
      match query results with
      | Some q => [Navigate "/search" results q; SetLoading false]
      | None => [ToastError msg; LogTypeError; SetLoading false]
      end
  | Some (inr e) => [ToastError msg; LogError e; SetLoading false]
  | None => []
  end.

Definition handleTextSearch (w : Api.world) (query : jsstring) : list effect :=
  awaiting (Api.queryText w query None None)
    (fun _ => Some (JStr query)) "Search failed. Please try again.".

(** if (!imageFile) return *)
Definition handleImageSearch (w : Api.world) (imageFile : option File)
    : list effect :=
  match imageFile with
  | None => []
  | Some f =>
      awaiting (Api.queryImage w f None None)
        (fun _ => Some (JStr (lit "Image search")))
        "Image search failed. Please try again."
  end.

Definition handleVoiceSearch (w : Api.world) (audioBlob : Blob) : list effect :=
  awaiting (Api.queryVoice w audioBlob None)
    message_of "Voice search failed. Please try again.".

(** The three inputs of the page, one per tab. *)
Inductive input :=
| Text (query : jsstring)           (* the form of SearchInput is submitted *)
| Image (f : option File)           (* ImageUpload calls onImageSelect *)
| Voice (delivered : list Blob).    (* a recording is stopped *)

(** Whether the input carries its modality: text that is not blank, a file,
    recorded audio data. *)
Definition modality_present (i : input) : bool :=
  match i with
  | Text q => truthy (trim q)
  | Image f => match f with Some _ => true | None => false end
  | Voice delivered => existsb (fun b => blob_size b >? 0) delivered
  end.

(** <SearchInput onSearch={handleTextSearch} loading={loading} />,
    <ImageUpload onImageSelect={handleImageSearch} />,
    <VoiceRecorder onRecordingComplete={handleVoiceSearch} /> *)
Definition submit (w : Api.world) (loading : bool) (i : input) : list effect :=
  match i with
  | Text q =>
      flat_map (fun e => match e with
                         | SearchInput.PreventDefault => [PreventDefault]
                         | SearchInput.OnSearch q' => handleTextSearch w q'
                         end)
        (SearchInput.handleSubmit {| SearchInput.loading := loading |}
                                  {| SearchInput.query := q |})
  | Image f => handleImageSearch w f
  | Voice delivered => handleVoiceSearch w (VoiceRecorder.recording delivered)
  end.

(** The requests a trace sends to the back end. *)
Definition requests (tr : list effect) : list Api.config :=
  omap (fun e => match e with Client (Api.Sent c) => Some c | _ => None end) tr.

(** Whether a trace reports any error: a toast or a logged exception. *)
Definition reports_error (tr : list effect) : bool :=
  existsb (fun e => match e with
                    | ToastError _ | LogError _ | LogTypeError
                    | Client (Api.ConsoleError _) => true
                    | _ => false
                    end) tr.

(** "The input fails with an error and no request is issued to any query
    endpoint." *)
Definition rejected_without_request (w : Api.world) (loading : bool) (i : input)
    : Prop :=
  reports_error (submit w loading i) = true /\ requests (submit w loading i) = [].

(** <ImageUpload onImageSelect={handleImageSearch} />: what the page does
    with the effects of the upload component. The page passes no [maxSize]. *)
Definition image_tab (w : Api.world) (tr : list ImageUpload.effect) : list effect :=
  flat_map (fun e => match e with
                     | ImageUpload.OnImageSelect f => handleImageSearch w f
                     | ImageUpload.ReadAsDataURL _ => []
                     end) tr.

Definition upload_props : ImageUpload.props := {| ImageUpload.maxSize_prop := None |}.

(** The image tab: the upload component takes an input, and the page
    handles what the component hands to [onImageSelect]. *)
Definition upload (types : jsstring -> option jsstring) (w : Api.world)
    (i : ImageUpload.input) (st : ImageUpload.state)
    : ImageUpload.state * list effect :=
  let '(st', tr) := ImageUpload.step types upload_props i st in (st', image_tab w tr).

(** <VoiceRecorder onRecordingComplete={handleVoiceSearch} /> *)
Definition voice_tab (w : Api.world) (tr : list VoiceRecorder.effect) : list effect :=
  flat_map (fun e => match e with
                     | VoiceRecorder.OnRecordingComplete b => handleVoiceSearch w b
                     | _ => []
                     end) tr.

(** The pages a trace navigates to, the toasts it shows, the values it gives
    to [setLoading]. *)
Definition navigations (tr : list effect) : list (string * json * json) :=
  omap (fun e => match e with Navigate p r q => Some (p, r, q) | _ => None end) tr.

Definition toasts (tr : list effect) : list string :=
  omap (fun e => match e with ToastError m => Some m | _ => None end) tr.

Definition loadings (tr : list effect) : list bool :=
  omap (fun e => match e with SetLoading b => Some b | _ => None end) tr.

(** The toast of each tab's handler, and the query it gives to the results
    page when it navigates. *)
Definition failure_message (i : input) : string :=
  match i with
  | Text _ => "Search failed. Please try again."
  | Image _ => "Image search failed. Please try again."
  | Voice _ => "Voice search failed. Please try again."
  end.

Definition query_label (i : input) (results : json) : json :=
  match i with
  | Text q => JStr (trim q)
  | Image _ => JStr (lit "Image search")
  | Voice _ => field "message" results
  end.

End HomePage.

(* ===================================================================== *)
(** ** components/ProductCard.jsx *)
(* ===================================================================== *)

Module ProductCard.

(** JavaScript values as the card receives them in its [product] prop. *)
Inductive value :=
| VUndefined
| VNull
| VBool (b : bool)
| VNum (q : Q)
| VStr (s : jsstring)
| VArr (l : list value)
| VObj (fs : list (string * value)).

Fixpoint lookup_field (k : string) (fs : list (string * value)) : value :=
  match fs with
  | [] => VUndefined
  | (k', v) :: fs' => if String.eqb k k' then v else lookup_field k fs'
  end.

(** [o.k] and [o?.k] on an object; the card reads no field of a value that
    is neither an object nor missing, except [length] and [0] of [images]. *)
Definition get (k : string) (o : value) : value :=
  match o with VObj fs => lookup_field k fs | _ => VUndefined end.

Definition truthy_value (v : value) : bool :=
  match v with
  | VUndefined | VNull => false
  | VBool b => b
  | VNum q => negb (Qeq_bool q 0)
  | VStr s => truthy s
  | VArr _ | VObj _ => true
  end.

(** [a || b] *)
Definition or_else (a b : value) : value := if truthy_value a then a else b.

Inductive star := StarIcon | StarOutlineIcon.

(** What the card puts on the screen. [MatchBadge s] is the badge
    "{Math.round(s * 100)}% match": the product and the rounding are the
    engine's floating-point operations on the score, and are not computed
    here. *)
Inductive node :=
| Img (src alt : value)
| NoImage
| MatchBadge (matchScore : Q)
| Text (s : jsstring)
| Category (v : value)
| Brand (v : value)
| Title (id name : value)
| Description (v : value)
| MatchReason (s : jsstring)
| Rating (stars : list star)
| ReviewCount (text : jsstring)
| Price (amount : Q)
| Retailer (v : value)
| CartButton.

(** [{a && <b/>}]: the element when [a] is truthy; a falsy number is
    rendered as text, every other falsy value as nothing. *)
Definition jsx_and (a : value) (b : list node) : list node :=
  if truthy_value a then b
  else match a with VNum _ => [Text (lit "0")] | _ => [] end.

(** for (let i = 1; i <= 5; i++) stars.push(i <= rating ? filled : outline) *)
Definition renderRating (rating : Q) : list star :=
  List.map (fun i : Z => if Qle_bool (inject_Z i) rating then StarIcon else StarOutlineIcon)
    [1; 2; 3; 4; 5].

Record props := {
  product     : value;
  matchScore  : option Q;
  matchReason : option jsstring
}.

Definition is_number (v : value) : bool :=
  match v with VNum _ => true | _ => false end.

Definition is_missing (v : value) : bool :=
  match v with VUndefined | VNull => true | _ => false end.

(** What React takes as a child: text, a number, the values it shows as
    nothing, and an array of such. An object makes the render throw
    ("Objects are not valid as a React child"). *)
Fixpoint valid_child (v : value) : bool :=
  match v with
  | VObj _ => false
  | VArr l => forallb valid_child l
  | _ => true
  end.

(** Whether a value converts to a string or a number without an exception.
    An object that came as data converts through Object.prototype.toString
    unless it has a field [toString] of its own, which is no function: the
    conversion then throws a TypeError. An array converts its elements. *)
Fixpoint coercible (v : value) : bool :=
  match v with
  | VObj fs => negb (existsb (fun kv => String.eqb (fst kv) "toString") fs)
  | VArr l => forallb coercible l
  | _ => true
  end.

(** ** [v > 0] *)

Definition is_digit (c : codeunit) : bool := ((0x30 <=? c) && (c <=? 0x39))%N.

Definition is_hex_digit (c : codeunit) : bool :=
  (is_digit c || ((0x41 <=? c) && (c <=? 0x46)) || ((0x61 <=? c) && (c <=? 0x66)))%N.

Definition is_octal_digit (c : codeunit) : bool := ((0x30 <=? c) && (c <=? 0x37))%N.

Definition is_binary_digit (c : codeunit) : bool := ((0x30 <=? c) && (c <=? 0x31))%N.

(** The leading decimal digits of a string, and what follows them. *)
Fixpoint digits (s : jsstring) : jsstring * jsstring :=
  match s with
  | c :: s' =>
      if is_digit c then let '(d, r) := digits s' in (c :: d, r) else ([], s)
  | [] => ([], [])
  end.

Definition decimal (ds : jsstring) : Z :=
  fold_left (fun acc c => 10 * acc + Z.of_N (c - 0x30)) ds 0.

(** One digit at least, and digits only. *)
Definition all_digits (ok : codeunit -> bool) (s : jsstring) : bool :=
  match s with [] => false | _ => forallb ok s end.

Definition some_nonzero (s : jsstring) : bool :=
  existsb (fun c => negb (c =? 0x30)%N) s.

(** ExponentPart, or nothing: e or E, an optional sign, digits. *)
Definition exponent (s : jsstring) : option Z :=
  match s with
  | [] => Some 0
  | c :: s' =>
      if ((c =? 0x65) || (c =? 0x45))%N then
        match s' with
        | sign :: ds =>
            if (sign =? 0x2D)%N
            then (if all_digits is_digit ds then Some (- decimal ds) else None)
            else if (sign =? 0x2B)%N
            then (if all_digits is_digit ds then Some (decimal ds) else None)
            else (if all_digits is_digit s' then Some (decimal s') else None)
        | [] => None
        end
      else None
  end.

(** StrUnsignedDecimalLiteral: Infinity, or digits with an optional
    fraction and exponent. Its value m * 10^x is a Number above 0 when it
    does not round to zero, that is when it is above 2^-1075. *)
Definition unsigned_positive (s : jsstring) : bool :=
  if bool_decide (s = lit "Infinity") then true
  else
    let '(int, r) := digits s in
    let '(frac, r') :=
      match r with
      | c :: r1 => if (c =? 0x2E)%N then digits r1 else ([], r)
      | [] => ([], [])
      end in
    match int ++ frac, exponent r' with
    | _ :: _, Some e =>
        let m := decimal (int ++ frac) in
        let x := e - Z.of_nat (length frac) in
        (0 <? m) && ((0 <=? x) || (10 ^ (- x) <? m * 2 ^ 1075))
    | _, _ => false
    end.

(** StringToNumber(s) > 0: white space around the literal is dropped; the
    empty string is 0; a literal with a radix prefix takes no sign; what is
    no literal is NaN. *)
Definition string_positive (s : jsstring) : bool :=
  match trim s with
  | [] => false
  | c :: t =>
      if (c =? 0x2D)%N then false
      else if (c =? 0x2B)%N then unsigned_positive t
      else
        match t with
        | p :: ds =>
            if (c =? 0x30)%N && ((p =? 0x78) || (p =? 0x58))%N
            then all_digits is_hex_digit ds && some_nonzero ds
            else if (c =? 0x30)%N && ((p =? 0x6F) || (p =? 0x4F))%N
            then all_digits is_octal_digit ds && some_nonzero ds
            else if (c =? 0x30)%N && ((p =? 0x62) || (p =? 0x42))%N
            then all_digits is_binary_digit ds && some_nonzero ds
            else unsigned_positive (c :: t)
        | [] => unsigned_positive [c]
        end
  end.

(** [v > 0] for a value that converts: null is 0 and undefined NaN; an
    array is compared through the string that joins its elements, which is
    a number only when the array has one element (true and false are then
    text); an object is NaN. *)
Fixpoint positive (v : value) : bool :=
  match v with
  | VNum n => if Qlt_le_dec 0 n then true else false
  | VBool b => b
  | VStr s => string_positive s
  | VArr [x] => match x with VBool _ => false | _ => positive x end
  | _ => false
  end.

(** <img src={src} alt={alt}/>: React writes an attribute as the string its
    value converts to. (When [alt] does not convert it holds an object,
    which the title refuses as a child.) *)
Definition img (src alt : value) : option (list node) :=
  if coercible src then Some [Img src alt] else None.

(** images && images.length > 0 ? <img src={images[0]} alt={name}/> : ...
    An array or a string has its own length; an object is asked for its
    [length] and [0] fields. [None] when a conversion throws. *)
Definition image_nodes (images name : value) : option (list node) :=
  match images with
  | VArr (src :: _) => img src name
  | VStr (c :: _) => img (VStr [c]) name
  | VObj fs =>
      if coercible (lookup_field "length" fs) then
        if positive (lookup_field "length" fs)
        then img (lookup_field "0" fs) name
        else Some [NoImage]
      else None
  | _ => Some [NoImage]
  end.

(** A value placed between tags: {v}. [None] when React refuses it. *)
Definition child (v : value) (n : node) : option (list node) :=
  if valid_child v then Some [n] else None.

(** {a && <b>{a}</b>} *)
Definition jsx_and_child (a : value) (n : node) : option (list node) :=
  if truthy_value a then child a n else Some (jsx_and a []).

(** ${bestPrice.amount?.toFixed(2) || bestPrice.toFixed(2)}: the amount
    shown with two decimals. [None] when neither is a number: the call of
    [toFixed] throws. *)
Definition price_amount (bestPrice : value) : option Q :=
  match get "amount" bestPrice, bestPrice with
  | VNum a, _ => Some a
  | (VUndefined | VNull), VNum b => Some b
  | _, _ => None
  end.

Definition price_nodes (bestPrice : value) : option (list node) :=
  if truthy_value bestPrice then
    a ← price_amount bestPrice;
    retailer ← jsx_and_child (get "retailer" bestPrice)
                 (Retailer (get "retailer" bestPrice));
    Some (Price a :: retailer)
  else Some (jsx_and bestPrice []).

(** {matchScore && <div>{Math.round(matchScore * 100)}% match</div>} *)
Definition badge_nodes (matchScore : option Q) : list node :=
  match matchScore with
  | Some s => jsx_and (VNum s) [MatchBadge s]
  | None => []
  end.

(** {matchReason && <p>{matchReason}</p>} *)
Definition reason_nodes (matchReason : option jsstring) : list node :=
  match matchReason with
  | Some r => jsx_and (VStr r) [MatchReason r]
  | None => []
  end.

(** <Link to={`/product/${id}`}><h3>{name}</h3></Link>: the template
    converts [id] to a string. *)
Definition title_nodes (id name : value) : option (list node) :=
  if coercible id then child name (Title id name) else None.

(** The card on the screen, or [None] when rendering it throws: in the
    component itself ([product.product] of a missing product, a conversion,
    [toFixed] of what is no number) or in React, which refuses an object as
    a child. *)
Definition render (p : props) : option (list node) :=
  if is_missing (product p) then None
  else
    let item := or_else (get "product" (product p)) (product p) in
    let bestPrice := or_else (get "best_price" (get "product" (product p)))
                             (get "best_price" (product p)) in
    let brand := get "brand" (get "features" item) in
    image ← image_nodes (get "images" item) (get "name" item);
    category ← child (get "category" item) (Category (get "category" item));
    brand_nodes ← jsx_and_child brand (Brand brand);
    title ← title_nodes (get "id" item) (get "name" item);
    description ← child (get "description" item)
                    (Description (get "description" item));
    prices ← price_nodes bestPrice;
    Some (image ++ badge_nodes (matchScore p)
          ++ category ++ brand_nodes ++ title ++ description
          ++ reason_nodes (matchReason p)
          ++ [Rating (renderRating 4); ReviewCount (lit "(128)")]
          ++ prices ++ [CartButton]).

(** The number of filled stars and the review count a card shows. *)
Definition filled (stars : list star) : Z :=
  Z.of_nat (length (List.filter (fun s => match s with StarIcon => true | _ => false end) stars)).

Definition shown_ratings (card : list node) : list Z :=
  omap (fun n => match n with Rating stars => Some (filled stars) | _ => None end) card.

Definition shown_review_counts (card : list node) : list jsstring :=
  omap (fun n => match n with ReviewCount t => Some t | _ => None end) card.

(** Whether the number [n] occurs anywhere in a value. *)
Fixpoint occurs (n : Q) (v : value) : bool :=
  match v with
  | VNum q => Qeq_bool q n
  | VArr l => existsb (occurs n) l
  | VObj fs => existsb (fun kv => occurs n (snd kv)) fs
  | _ => false
  end.

(** The two values the card computes first: the object whose fields it
    shows, and the best price. *)
Definition item_of (product : value) : value :=
  or_else (get "product" product) product.

Definition bestPrice_of (product : value) : value :=
  or_else (get "best_price" (get "product" product)) (get "best_price" product).

Definition shown_prices (card : list node) : list Q :=
  omap (fun n => match n with Price a => Some a | _ => None end) card.

(** The scores of the match badges on a card. *)
Definition shown_badges (card : list node) : list Q :=
  omap (fun n => match n with MatchBadge s => Some s | _ => None end) card.

Definition shown_titles (card : list node) : list (value * value) :=
  omap (fun n => match n with Title i nm => Some (i, nm) | _ => None end) card.

End ProductCard.

(* ===================================================================== *)
(** ** pages/SearchPage.jsx *)
(* ===================================================================== *)

Module SearchPage.

(** [ToBoolean] on a value that travelled as JSON. *)
Definition truthy_json (j : json) : bool :=
  match j with
  | JNull => false
  | JNum n => negb (n =? 0)
  | JStr s => truthy s
  | JObj _ => true
  end.

(** The three pieces of state; [results] is [JNull] for null. *)
Record state := { results : json; query : json; loading : bool }.

(** useState(location.state?.results || null),
    useState(location.state?.query || ''), useState(false);
    [location.state] is what the previous page gave to [navigate], if any. *)
Definition initial (location_state : option (json * json)) : state :=
  match location_state with
  | Some (r, q) =>
      {| results := if truthy_json r then r else JNull;
         query := if truthy_json q then q else JStr [];
         loading := false |}
  | None => {| results := JNull; query := JStr []; loading := false |}
  end.

Inductive effect :=
| Client (e : Api.event)
| LogError (e : Api.error).

(** handleSearch:
      setLoading(true); setQuery(newQuery)
      try { const data = await queryText(newQuery); setResults(data) }
      catch (error) { console.error('Search failed:', error) }
      finally { setLoading(false) } *)
Definition handleSearch (w : Api.world) (newQuery : jsstring) (st : state)
    : state * list effect :=
  let r := Api.queryText w newQuery None None in
  match snd r with
  | Some (inl data) =>
      ({| results := data; query := JStr newQuery; loading := false |},
       List.map Client (fst r))
  | Some (inr e) =>
      ({| results := results st; query := JStr newQuery; loading := false |},
       List.map Client (fst r) ++ [LogError e])
  | None =>
      ({| results := results st; query := JStr newQuery; loading := true |},
       List.map Client (fst r))
  end.

(** <SearchInput onSearch={handleSearch} loading={loading} />: a submit of
    the refine form. *)
Definition refine (w : Api.world) (typed : jsstring) (st : state)
    : state * list effect :=
  match SearchInput.searches
          (SearchInput.handleSubmit {| SearchInput.loading := loading st |}
                                    {| SearchInput.query := typed |}) with
  | q :: _ => handleSearch w q st
  | [] => (st, [])
  end.

(** Arriving from the home page: the last navigation of a trace. *)
Definition arrive (tr : list HomePage.effect) : option state :=
  match HomePage.navigations tr with
  | [(_, r, q)] => Some (initial (Some (r, q)))
  | _ => None
  end.

Definition requests (tr : list effect) : list Api.config :=
  omap (fun e => match e with Client (Api.Sent c) => Some c | _ => None end) tr.

End SearchPage.

(* ===================================================================== *)
(** ** The orchestrator (back end) *)
(* ===================================================================== *)

(** The intent classifier and the tool executor live in the Python back end
    ([backend/agents], [backend/tools]), which is not among the sources.
    Every definition of this module is modelled from sections 3, 4.4 and 4.5
    of the specification. *)
Module Orchestrator.

(** Modelled from the spec: the intent kinds of the missing classifier,
    "kind in {search, compare, recommend, purchase, clarify, unknown}". *)
Inductive IntentKind := search | compare | recommend | purchase | clarify | unknown.

(** Modelled from the spec: the missing filter record, "extracted filters
    (price bounds, category, brand)". *)
Record Filters := {
  price_min : option Q;
  price_max : option Q;
  category  : option string;
  brand     : option string
}.

(** Modelled from the spec: the missing Intent model, "kind, confidence in
    [0,1], extracted filters". *)
Record Intent := { kind : IntentKind; confidence : Q; filters : Filters }.

(** Modelled from the spec: the two configured values of the missing back
    end that the pipeline reads. *)
Record Config := {
  confidence_threshold : Q;   (* default 0.5 *)
  alpha : Q                   (* default 0.6 *)
}.

(** Modelled from the spec: the defaults of the missing configuration,
    threshold 0.5 and alpha 0.6. *)
Definition default_config : Config :=
  {| confidence_threshold := 1 # 2; alpha := 6 # 10 |}.

(** Modelled from the spec: the last step of the intent classifier, missing
    from the sources. "If resulting confidence < configured threshold
    (default 0.5), force kind = clarify". *)
Definition apply_threshold (cfg : Config) (i : Intent) : Intent :=
  if Qlt_le_dec (confidence i) (confidence_threshold cfg)
  then {| kind := clarify; confidence := confidence i; filters := filters i |}
  else i.

(** Modelled from the spec: one product of a product-bearing result of a
    missing tool. *)
Record Candidate := {
  product_id : string;
  semantic_similarity : Q;
  keyword_match : Q;
  match_reason : string
}.

(** Modelled from the spec: the interface of the missing tools,
    "{can_handle(intent) -> bool, execute(params, context) -> ToolResult}";
    a failing tool yields its error instead. *)
Record Tool := {
  tool_name  : string;
  can_handle : Intent -> bool;
  execute    : Intent -> list Candidate + string;
  latency_ms : Intent -> Z
}.

(** Modelled from the spec: the missing ToolInvocation model, "tool name,
    input parameters, result payload, latency, success flag, error". *)
Record ToolInvocation := {
  inv_tool    : string;
  inv_input   : Intent;
  inv_result  : list Candidate;
  inv_latency : Z;
  inv_success : bool;
  inv_error   : option string
}.

(** Modelled from the spec: one run of a tool by the missing executor;
    "every ToolInvocation records latency and success/error even on
    failure". *)
Definition invoke (i : Intent) (t : Tool) : ToolInvocation :=
  match execute t i with
  | inl products =>
      {| inv_tool := tool_name t; inv_input := i; inv_result := products;
         inv_latency := latency_ms t i; inv_success := true; inv_error := None |}
  | inr e =>
      {| inv_tool := tool_name t; inv_input := i; inv_result := [];
         inv_latency := latency_ms t i; inv_success := false; inv_error := Some e |}
  end.

(** Modelled from the spec: the tool executor, missing from the sources.
    "the executor selects every tool whose can_handle returns true" and
    records one invocation for each. *)
Definition execute_tools (registry : list Tool) (i : Intent) : list ToolInvocation :=
  List.map (invoke i) (List.filter (fun t => can_handle t i) registry).

(** Modelled from the spec: an entry of the merged product list of the
    missing executor. *)
Record Ranked := { r_id : string; score : Q; reasons : list string }.

(** Modelled from the spec: the score of the missing merge step, "combined
    score = alpha * semantic-similarity + (1 - alpha) * keyword-match". *)
Definition combined_score (cfg : Config) (c : Candidate) : Q :=
  (alpha cfg * semantic_similarity c + (1 - alpha cfg) * keyword_match c)%Q.

(** Modelled from the spec: a tool's product as an entry of the merge. *)
Definition rank_candidate (cfg : Config) (c : Candidate) : Ranked :=
  {| r_id := product_id c; score := combined_score cfg c;
     reasons := [match_reason c] |}.

(** Modelled from the spec: "keeping the highest score". *)
Definition higher (a b : Q) : Q := if Qlt_le_dec a b then b else a.

(** Modelled from the spec: "concatenating distinct match-reason strings". *)
Definition distinct_reasons (old new : list string) : list string :=
  old ++ List.filter (fun r => negb (existsb (String.eqb r) old)) new.

(** Modelled from the spec: one step of the missing de-duplication,
    "de-duplicate by product id keeping the highest score and concatenating
    distinct match-reason strings". *)
Fixpoint absorb (x : Ranked) (acc : list Ranked) : list Ranked :=
  match acc with
  | [] => [x]
  | y :: acc' =>
      if String.eqb (r_id x) (r_id y)
      then {| r_id := r_id y; score := higher (score y) (score x);
              reasons := distinct_reasons (reasons y) (reasons x) |} :: acc'
      else y :: absorb x acc'
  end.

(** Modelled from the spec: the missing de-duplication, over the results
    in the order they arrive. *)
Definition dedup (l : list Ranked) : list Ranked :=
  fold_left (fun acc x => absorb x acc) l [].

(** Modelled from the spec: the order of the missing merge step, "final
    ordering is descending combined score, ties broken by lexicographic
    product id"; [a] may stand before [b]. *)
Definition precedes (a b : Ranked) : Prop :=
  (score b < score a)%Q \/ ((score a == score b)%Q /\ String.le (r_id a) (r_id b)).

#[global] Instance precedes_dec : RelDecision precedes.
Proof.
  intros a b. unfold precedes.
  destruct (Qlt_le_dec (score b) (score a)) as [Hlt | Hle].
  - left. now left.
  - destruct (Qeq_dec (score a) (score b)) as [Heq | Hne].
    + destruct (decide (String.le (r_id a) (r_id b))) as [Hs | Hs].
      * left. right. now split.
      * right. intros [H | [_ H]]; [ apply (Qlt_not_le _ _ H Hle) | exact (Hs H) ].
    + right. intros [H | [H _]]; [ apply (Qlt_not_le _ _ H Hle) | exact (Hne H) ].
Defined.

(** Modelled from the spec: two entries that rank alike, the same product
    with an equal score. *)
Definition same_rank (a b : Ranked) : Prop :=
  r_id a = r_id b /\ (score a == score b)%Q.

(** Modelled from the spec: "keeping the highest score", as a property;
    the entry [e] carries the highest score that the entries of [l] give to
    its product. *)
Definition best_of (l : list Ranked) (e : Ranked) : Prop :=
  (forall x, x ∈ l -> r_id x = r_id e -> (score x <= score e)%Q) /\
  (exists x, x ∈ l /\ r_id x = r_id e /\ (score x == score e)%Q).

(** Modelled from the spec: what de-duplication maintains; the accumulator
    after the entries [seen] have been absorbed has one entry per product,
    each with the highest score seen. *)
Definition absorbed (seen acc : list Ranked) : Prop :=
  NoDup (List.map r_id acc) /\
  (forall e, e ∈ acc -> best_of seen e) /\
  (forall z, z ∈ seen -> r_id z ∈ List.map r_id acc).

(** Modelled from the spec: the merge and rank policy of the tool executor,
    missing from the sources. Score, de-duplicate, then order. *)
Definition merge_rank (cfg : Config) (results : list Candidate) : list Ranked :=
  merge_sort precedes (dedup (List.map (rank_candidate cfg) results)).

(** Modelled from the spec: the two responses of the missing synthesizer
    that the pipeline distinguishes. *)
Inductive Response :=
| ClarificationQuestion (about : Intent)
| Answer (about : Intent) (ranked_products : list Ranked).

(** Modelled from the spec: the missing Turn model, "(Query, Intent,
    ToolInvocation list, Response)", without the query. *)
Record Turn := {
  turn_intent      : Intent;
  turn_invocations : list ToolInvocation;
  turn_response    : Response
}.

(** Modelled from the spec: the test the missing pipeline branches on. *)
Definition is_clarify (k : IntentKind) : bool :=
  match k with clarify => true | _ => false end.

(** Modelled from the spec: the pipeline after classification, missing from
    the sources. On [clarify] the pipeline does "not proceed to tool
    execution — the Response Synthesizer must instead produce a
    clarification question"; otherwise the selected tools run and the
    products of the successful ones are merged. *)
Definition run_turn (cfg : Config) (registry : list Tool) (classified : Intent) : Turn :=
  let intent := apply_threshold cfg classified in
  if is_clarify (kind intent)
  then {| turn_intent := intent; turn_invocations := [];
          turn_response := ClarificationQuestion intent |}
  else
    let invocations := execute_tools registry intent in
    {| turn_intent := intent; turn_invocations := invocations;
       turn_response :=
         Answer intent (merge_rank cfg (flat_map inv_result invocations)) |}.

End Orchestrator.

(* ===================================================================== *)
(** ** Sample inputs *)
(* ===================================================================== *)

Module Sample.

(** A back end that answers every request with 200 and an empty result
    after 120 ms. *)
Definition world : Api.world :=
  {| Api.VITE_API_URL := None;
     Api.localStorage := ∅;
     Api.server := fun _ =>
       Api.Answers 120 {| Api.status := 200;
                          Api.resp_data := JObj [("products", JObj [])] |} |}.

(** A back end that never answers. *)
Definition silent_world : Api.world :=
  {| Api.VITE_API_URL := None; Api.localStorage := ∅;
     Api.server := fun _ => Api.Silent |}.

Definition health_request : Api.config :=
  Api.mergeConfig None "get" (lit "/health") Api.NoBody Api.no_overrides.

(** localStorage.setItem('session_id', '') *)
Definition empty_session : gmap string jsstring := {[ "session_id" := [] ]}.

Definition session_42 : gmap string jsstring := {[ "session_id" := lit "s-42" ]}.

Definition bytes (n : nat) : list Byte.byte := repeat Byte.x00 n.

(** A text file of 12 bytes. *)
Definition notes_txt : File :=
  {| file_name := lit "notes.txt";
     file_blob := {| blob_data := bytes 12; blob_type := lit "text/plain" |} |}.

(** A PNG image of 12 bytes. *)
Definition photo_png : File :=
  {| file_name := lit "photo.PNG";
     file_blob := {| blob_data := bytes 12; blob_type := lit "image/png" |} |}.

Definition upload_state : ImageUpload.state :=
  {| ImageUpload.preview := Some (lit "data:image/png;base64,AAAA");
     ImageUpload.error := None |}.

(** The upload component as it is mounted: no preview, no error. *)
Definition empty_upload : ImageUpload.state :=
  {| ImageUpload.preview := None; ImageUpload.error := None |}.

(** Some entries of file-selector's table of MIME types. *)
Definition mime_types (ext : jsstring) : option jsstring :=
  if bool_decide (ext = lit "png") then Some (lit "image/png")
  else if bool_decide (ext = lit "bmp") then Some (lit "image/bmp")
  else if bool_decide (ext = lit "txt") then Some (lit "text/plain")
  else None.

(** A bitmap to which the browser gives no type. *)
Definition scan_bmp : File :=
  {| file_name := lit "scan.BMP";
     file_blob := {| blob_data := bytes 12; blob_type := [] |} |}.

(** The thumbnail cache that Windows keeps in a folder of pictures. *)
Definition thumbs_db : File :=
  {| file_name := lit "Thumbs.db";
     file_blob := {| blob_data := bytes 12;
                     blob_type := lit "application/octet-stream" |} |}.

(** A text file as Firefox may hand it over in a drag. *)
Definition moz_file : File :=
  {| file_name := lit "letter.txt";
     file_blob := {| blob_data := bytes 12;
                     blob_type := lit "application/x-moz-file" |} |}.

(** A back end that answers every request with 200 and the body null. *)
Definition null_world : Api.world :=
  {| Api.VITE_API_URL := None; Api.localStorage := ∅;
     Api.server := fun _ =>
       Api.Answers 120 {| Api.status := 200; Api.resp_data := JNull |} |}.

(** A search result as the tools return it: rated 2 by 5 reviewers. *)
Definition jacket : ProductCard.value :=
  ProductCard.VObj
    [ ("product",
       ProductCard.VObj
         [ ("id", ProductCard.VStr (lit "p-17"));
           ("name", ProductCard.VStr (lit "Red leather jacket"));
           ("description", ProductCard.VStr (lit "Biker jacket"));
           ("images", ProductCard.VArr []);
           ("category", ProductCard.VStr (lit "jackets"));
           ("features", ProductCard.VObj [("brand", ProductCard.VStr (lit "Acme"))]);
           ("rating", ProductCard.VNum 2);
           ("review_count", ProductCard.VNum 5);
           ("best_price",
            ProductCard.VObj [ ("amount", ProductCard.VNum 180);
                               ("retailer", ProductCard.VStr (lit "A")) ]) ]);
      ("match_score", ProductCard.VNum (9 # 10));
      ("match_reason", ProductCard.VStr (lit "color and material match")) ].

Definition jacket_card : ProductCard.props :=
  {| ProductCard.product := jacket;
     ProductCard.matchScore := Some (9 # 10);
     ProductCard.matchReason := Some (lit "color and material match") |}.

(** A product-search tool that handles every intent and finds two jackets. *)
Definition no_filters : Orchestrator.Filters :=
  {| Orchestrator.price_min := None; Orchestrator.price_max := None;
     Orchestrator.category := None; Orchestrator.brand := None |}.

Definition found : list Orchestrator.Candidate :=
  [ {| Orchestrator.product_id := "p-2"; Orchestrator.semantic_similarity := 1 # 2;
       Orchestrator.keyword_match := 1 # 2; Orchestrator.match_reason := "color" |};
    {| Orchestrator.product_id := "p-1"; Orchestrator.semantic_similarity := 2 # 4;
       Orchestrator.keyword_match := 1 # 2; Orchestrator.match_reason := "material" |};
    {| Orchestrator.product_id := "p-3"; Orchestrator.semantic_similarity := 9 # 10;
       Orchestrator.keyword_match := 1 # 2; Orchestrator.match_reason := "brand" |};
    {| Orchestrator.product_id := "p-2"; Orchestrator.semantic_similarity := 1 # 10;
       Orchestrator.keyword_match := 1 # 10; Orchestrator.match_reason := "price" |} ].

Definition product_search : Orchestrator.Tool :=
  {| Orchestrator.tool_name := "product_search";
     Orchestrator.can_handle := fun _ => true;
     Orchestrator.execute := fun _ => inl found;
     Orchestrator.latency_ms := fun _ => 40 |}.

(** "jacket?", classified as a search with confidence 0.3. *)
Definition vague_search : Orchestrator.Intent :=
  {| Orchestrator.kind := Orchestrator.search; Orchestrator.confidence := 3 # 10;
     Orchestrator.filters := no_filters |}.

Definition clear_search : Orchestrator.Intent :=
  {| Orchestrator.kind := Orchestrator.search; Orchestrator.confidence := 9 # 10;
     Orchestrator.filters := no_filters |}.

(** A browser that holds the session id "s-42". *)
Definition session_world : Api.world :=
  {| Api.VITE_API_URL := None; Api.localStorage := session_42;
     Api.server := Api.server world |}.

(** A back end whose answer is a 500. *)
Definition failing_world : Api.world :=
  {| Api.VITE_API_URL := None; Api.localStorage := ∅;
     Api.server := fun _ =>
       Api.Answers 80 {| Api.status := 500; Api.resp_data := JNull |} |}.

(** The page shows the results of an earlier search for "boots". *)
Definition boots_page : SearchPage.state :=
  {| SearchPage.results := JObj [("products", JObj []); ("message", JStr (lit "3 found"))];
     SearchPage.query := JStr (lit "boots");
     SearchPage.loading := false |}.

(** A flat search result whose price came as text. *)
Definition text_price : ProductCard.value :=
  ProductCard.VObj
    [ ("id", ProductCard.VStr (lit "p-9"));
      ("name", ProductCard.VStr (lit "Scarf"));
      ("best_price", ProductCard.VStr (lit "19.99")) ].

Definition text_price_card : ProductCard.props :=
  {| ProductCard.product := text_price;
     ProductCard.matchScore := None;
     ProductCard.matchReason := None |}.

(** A flat search result: the fields of the product at the top level. *)
Definition flat_jacket : ProductCard.value :=
  ProductCard.VObj
    [ ("id", ProductCard.VStr (lit "p-17"));
      ("name", ProductCard.VStr (lit "Red leather jacket"));
      ("category", ProductCard.VStr (lit "jackets"));
      ("best_price", ProductCard.VNum 180) ].

End Sample.

(* ===================================================================== *)
(** * Properties *)
(* ===================================================================== *)

(** ** [trim] removes exactly the surrounding whitespace *)

Section Trim.

Lemma trimStart_split (s : jsstring) :
  exists pre, s = pre ++ trimStart s /\ Forall whitespace pre.
Proof.
  induction s as [| c s IH]; simpl.
  - exists []. split; [reflexivity | constructor].
  - destruct (is_whitespace c) eqn:Hc.
    + destruct IH as (pre & Hs & Hpre).
      exists (c :: pre). split.
      * simpl. now rewrite <- Hs.
      * now constructor.
    + exists []. split; [reflexivity | constructor].
Qed.

Lemma trimStart_head (s : jsstring) c t :
  trimStart s = c :: t -> is_whitespace c = false.
Proof.
  induction s as [| d s IH]; simpl; [discriminate |].
  destruct (is_whitespace d) eqn:Hd; [exact IH |].
  intros [= <- _]. exact Hd.
Qed.

Lemma trimEnd_split (s : jsstring) :
  exists post, s = trimEnd s ++ post /\ Forall whitespace post.
Proof.
  destruct (trimStart_split (rev s)) as (pre & Hs & Hpre).
  exists (rev pre). split.
  - unfold trimEnd. rewrite <- rev_app_distr, <- Hs. now rewrite rev_involutive.
  - now apply Forall_rev.
Qed.

Lemma trimEnd_last (s : jsstring) c t :
  trimEnd s = t ++ [c] -> is_whitespace c = false.
Proof.
  unfold trimEnd. intros H.
  apply (f_equal (@rev _)) in H.
  rewrite rev_involutive, rev_app_distr in H. simpl in H.
  now apply trimStart_head in H.
Qed.

Lemma trim_Trimmed (s : jsstring) : Trimmed s (trim s).
Proof.
  destruct (trimStart_split s) as (pre & Hpre_eq & Hpre).
  destruct (trimEnd_split (trimStart s)) as (post & Hpost_eq & Hpost).
  exists pre, post. unfold trim. repeat split.
  - now rewrite <- Hpost_eq.
  - exact Hpre.
  - exact Hpost.
  - intros c t Ht. rewrite Ht in Hpost_eq. simpl in Hpost_eq.
    now apply trimStart_head in Hpost_eq.
  - intros c t Ht. now apply trimEnd_last in Ht.
Qed.

(** The two ends determine the middle: [Trimmed] has one solution. *)
Lemma Trimmed_trimStart (pre t post : jsstring) :
  Forall whitespace pre ->
  (forall c t', t = c :: t' -> is_whitespace c = false) ->
  Forall whitespace post ->
  trimStart (pre ++ t ++ post) = match t with [] => [] | _ => t ++ post end.
Proof.
  intros Hpre Hhd Hpost. induction Hpre as [| c pre Hc _ IH]; simpl.
  - destruct t as [| c t]; simpl.
    + induction Hpost as [| c post Hc _ IH]; simpl; [reflexivity |].
      unfold whitespace in Hc. now rewrite Hc.
    + now rewrite (Hhd c t eq_refl).
  - unfold whitespace in Hc. now rewrite Hc.
Qed.

Lemma Trimmed_unique (s t : jsstring) : Trimmed s t -> t = trim s.
Proof.
  intros (pre & post & -> & Hpre & Hpost & Hhd & Hlast).
  unfold trim. rewrite (Trimmed_trimStart pre t post Hpre Hhd Hpost).
  destruct t as [| c t]; [reflexivity |].
  unfold trimEnd. rewrite rev_app_distr.
  assert (Hrev : rev (c :: t) <> []).
  { intros H. apply (f_equal (@length _)) in H. rewrite length_rev in H. discriminate. }
  pose proof (Trimmed_trimStart (rev post) (rev (c :: t)) []) as H.
  rewrite app_nil_r in H. rewrite H.
  - destruct (rev (c :: t)) eqn:E; [contradiction |].
    rewrite <- E. now rewrite rev_involutive.
  - now apply Forall_rev.
  - intros d t' E. apply (Hlast d (rev t')).
    apply (f_equal (@rev _)) in E. rewrite rev_involutive in E.
    rewrite E. reflexivity.
  - constructor.
Qed.

End Trim.

(** ** SearchInput *)

(** C10. Every query the search form hands to its [onSearch] handler is the
    typed text with its leading and trailing whitespace removed, and while
    [loading] is set a submit hands over nothing; when not loading, a
    non-blank text is handed over exactly once. *)
Theorem search_input_delivers_trimmed_query
    (p : SearchInput.props) (st : SearchInput.state) :
  (forall q, In q (SearchInput.searches (SearchInput.handleSubmit p st)) ->
     q = trim (SearchInput.query st) /\ Trimmed (SearchInput.query st) q) /\
  (SearchInput.loading p = true ->
     SearchInput.searches (SearchInput.handleSubmit p st) = []) /\
  (SearchInput.loading p = false -> truthy (trim (SearchInput.query st)) = true ->
     SearchInput.searches (SearchInput.handleSubmit p st) = [trim (SearchInput.query st)]).
Proof.
  unfold SearchInput.handleSubmit, SearchInput.searches.
  split; [| split].
  - destruct (truthy (trim (SearchInput.query st)) && negb (SearchInput.loading p));
      simpl; [| contradiction].
    intros q [<- | []]. split; [reflexivity | apply trim_Trimmed].
  - intros ->. now rewrite andb_false_r.
  - intros -> ->. reflexivity.
Qed.

Lemma search_input_delivers_trimmed_query_witness :
  SearchInput.searches
    (SearchInput.handleSubmit {| SearchInput.loading := true |}
                              {| SearchInput.query := lit "  red jacket " |}) = [] /\
  SearchInput.searches
    (SearchInput.handleSubmit {| SearchInput.loading := false |}
                              {| SearchInput.query := lit "  red jacket " |})
  = [lit "red jacket"].
Proof.
  split.
  - apply (proj1 (proj2 (search_input_delivers_trimmed_query
                           {| SearchInput.loading := true |}
                           {| SearchInput.query := lit "  red jacket " |}))).
    reflexivity.
  - apply (proj2 (proj2 (search_input_delivers_trimmed_query
                           {| SearchInput.loading := false |}
                           {| SearchInput.query := lit "  red jacket " |})));
      reflexivity.
Defined.

(** ** The axios client *)

Section Client.

Import Api.

Lemma request_interceptor_fields (ls : Storage) (c : config) :
  method (request_interceptor ls c) = method c /\
  baseURL (request_interceptor ls c) = baseURL c /\
  url (request_interceptor ls c) = url c /\
  params (request_interceptor ls c) = params c /\
  data (request_interceptor ls c) = data c /\
  timeout (request_interceptor ls c) = timeout c.
Proof.
  unfold request_interceptor.
  destruct (ls !! "session_id") as [sid |]; [destruct (truthy sid) |];
    repeat split.
Qed.

Lemma sent_response_interceptor (s : settled) : sent (response_interceptor s) = [].
Proof. destruct s as [r | [ms | | r]]; reflexivity. Qed.

Lemma sent_call (w : world) m u d o :
  sent (fst (call w m u d o))
  = [request_interceptor (localStorage w) (mergeConfig (VITE_API_URL w) m u d o)].
Proof.
  unfold call, request. simpl.
  destruct (adapter _ _) as [s |]; simpl; [| reflexivity].
  unfold sent in *. simpl. f_equal. apply sent_response_interceptor.
Qed.

Lemma result_call (w : world) m u d o :
  snd (call w m u d o)
  = response_data <$>
      adapter (request_interceptor (localStorage w) (mergeConfig (VITE_API_URL w) m u d o))
        (server w (request_interceptor (localStorage w)
                     (mergeConfig (VITE_API_URL w) m u d o))).
Proof. reflexivity. Qed.

Lemma adapter_timeout (c : config) (srv : reply) :
  0 < timeout c -> completes_within (timeout c) srv = false ->
  adapter c srv = Some (Rejected (TimeoutError (timeout c))).
Proof.
  intros Hpos Hlate. unfold adapter, in_time.
  assert (Hz : (timeout c =? 0) = false) by (apply Z.eqb_neq; lia).
  rewrite Hz. destruct srv as [l r | l |]; simpl in *; try rewrite Hlate; reflexivity.
Qed.

Lemma timeout_call (o : overrides) env m u d ls :
  o_timeout o = None ->
  timeout (request_interceptor ls (mergeConfig env m u d o)) = 30000.
Proof.
  intros Ho.
  destruct (request_interceptor_fields ls (mergeConfig env m u d o))
    as (_ & _ & _ & _ & _ & ->).
  simpl. now rewrite Ho.
Qed.

Lemma call_times_out (w : world) m u d (o : overrides) :
  o_timeout o = None ->
  exists c,
    sent (fst (call w m u d o)) = [c] /\
    timeout c = 30000 /\
    is_Some (snd (call w m u d o)) /\
    (completes_within 30000 (server w c) = false ->
     snd (call w m u d o) = Some (inr (TimeoutError 30000))).
Proof.
  intros Ho. eexists. split; [apply sent_call |].
  rewrite result_call.
  pose proof (timeout_call o (VITE_API_URL w) m u d (localStorage w) Ho) as Ht.
  set (c := request_interceptor _ _) in *.
  split; [exact Ht |]. split.
  - unfold adapter, in_time. rewrite Ht. simpl.
    destruct (server w c) as [l r | l |]; simpl; [destruct (l <=? 30000) | destruct (l <=? 30000) |];
      simpl; eauto.
  - intros Hlate. rewrite <- Ht in Hlate. rewrite adapter_timeout; [| lia | exact Hlate].
    simpl. now rewrite Ht.
Qed.

End Client.

(** C5. Every call made through the shared client sends one request, that
    request carries the instance's timeout of 30000 ms, and when the server
    is not done with it within 30000 ms the call ends with the timeout
    error; no call stays pending for ever. *)
Theorem every_call_times_out_after_30s (w : Api.world) (call : Api.api_call) :
  exists c,
    Api.sent (fst (Api.perform w call)) = [c] /\
    Api.timeout c = 30000 /\
    is_Some (snd (Api.perform w call)) /\
    (Api.completes_within 30000 (Api.server w c) = false ->
     snd (Api.perform w call) = Some (inr (Api.TimeoutError 30000))).
Proof.
  destruct call; apply call_times_out; reflexivity.
Qed.

Lemma every_call_times_out_after_30s_witness :
  snd (Api.perform Sample.silent_world
         (Api.QueryText (lit "red leather jacket") None None))
  = Some (inr (Api.TimeoutError 30000)).
Proof.
  destruct (every_call_times_out_after_30s Sample.silent_world
              (Api.QueryText (lit "red leather jacket") None None))
    as (c & _ & _ & _ & H).
  apply H. reflexivity.
Defined.

(** C7. A text query made with the text alone posts, to /api/query/text, a
    JSON body with exactly the fields query_text (the text), query_type
    ("text"), filters (the empty object) and max_results (10); this is the
    call the home page makes for a text search. *)
Theorem queryText_body_with_defaults (w : Api.world) (q : jsstring) :
  exists c,
    Api.sent (fst (Api.queryText w q None None)) = [c] /\
    HomePage.requests (HomePage.handleTextSearch w q) = [c] /\
    Api.method c = "post" /\
    Api.url c = lit "/api/query/text" /\
    Api.data c = Api.JsonBody (JObj [ ("query_text", JStr q);
                                      ("query_type", JStr (lit "text"));
                                      ("filters", JObj []);
                                      ("max_results", JNum 10) ]).
Proof.
  eexists. split; [apply sent_call |].
  match goal with
  | |- context [Api.request_interceptor ?ls ?mc] =>
      destruct (request_interceptor_fields ls mc) as (Hm & _ & Hu & _ & Hd & _);
      rewrite Hm, Hu, Hd
  end.
  split; [| repeat split].
  unfold HomePage.handleTextSearch, HomePage.awaiting, HomePage.requests,
    Api.queryText, Api.call, Api.request.
  destruct (Api.adapter _ _) as [[r | [ms | | r]] |]; reflexivity.
Qed.

(** ** VoiceRecorder *)

Lemma chunks_kept (delivered : list Blob) (cs : VoiceRecorder.chunks) :
  fold_left (fun cs d => VoiceRecorder.ondataavailable d cs) delivered cs
  = cs ++ List.filter (fun d => blob_size d >? 0) delivered.
Proof.
  revert cs. induction delivered as [| d ds IH]; intros cs; simpl.
  - now rewrite app_nil_r.
  - rewrite IH. unfold VoiceRecorder.ondataavailable.
    destruct (blob_size d >? 0); [now rewrite <- app_assoc | reflexivity].
Qed.

(** C8. Whatever blobs the recorder delivers, of whatever MIME type, a voice
    query uploads them as one file named "recording.wav" of type
    "audio/wav": the bytes are those of the non-empty chunks in order, and
    the chunks' own types appear nowhere in the request body. *)
Theorem voice_upload_is_recording_wav (w : Api.world) (loading : bool)
    (delivered : list Blob) :
  exists c,
    HomePage.requests
      (HomePage.submit w loading (HomePage.Voice delivered)) = [c] /\
    Api.url c = lit "/api/query/voice" /\
    Api.data c = Api.FormBody
      [ ("audio",
         FFile {| file_name := lit "recording.wav";
                  file_blob :=
                    {| blob_data :=
                         List.concat (List.map blob_data
                           (List.filter (fun d => blob_size d >? 0) delivered));
                       blob_type := lit "audio/wav" |} |});
        ("max_results", FText (lit "10")) ].
Proof.
  simpl. unfold HomePage.handleVoiceSearch, VoiceRecorder.recording.
  rewrite chunks_kept. simpl.
  eexists. split.
  - unfold HomePage.awaiting, HomePage.requests, Api.queryVoice, Api.call, Api.request.
    destruct (Api.adapter _ _) as [[r | [ms | | r]] |]; try reflexivity.
    cbn. destruct (HomePage.message_of _); reflexivity.
  - match goal with
    | |- context [Api.request_interceptor ?ls ?mc] =>
        destruct (request_interceptor_fields ls mc) as (_ & _ & Hu & _ & Hd & _);
        rewrite Hu, Hd
    end.
    split; reflexivity.
Qed.

(** ** The request interceptor *)

(** What the interceptor does, case by case. *)
Lemma request_interceptor_cases (ls : gmap string jsstring) (c : Api.config) :
  (exists sid, ls !! "session_id" = Some sid /\ sid <> [] /\
     Api.headers (Api.request_interceptor ls c)
     = <["X-Session-ID" := sid]> (Api.headers c)) \/
  ((ls !! "session_id" = None \/ ls !! "session_id" = Some []) /\
     Api.request_interceptor ls c = c).
Proof.
  unfold Api.request_interceptor.
  destruct (ls !! "session_id") as [[| a sid] |] eqn:E; simpl.
  - right. split; [now right | reflexivity].
  - left. exists (a :: sid). repeat split. discriminate.
  - right. split; [now left | reflexivity].
Qed.

(** C9, as stated, fails: with the empty string stored under session_id the
    value is present and no header is attached. *)
Lemma session_header_not_attached_for_empty_id :
  Api.session_header Sample.health_request = None /\
  is_Some (Sample.empty_session !! "session_id") /\
  Api.session_header
    (Api.request_interceptor Sample.empty_session Sample.health_request) = None /\
  ~ Api.attached_iff_present Sample.empty_session Sample.health_request.
Proof.
  assert (Hp : is_Some (Sample.empty_session !! "session_id"))
    by (eexists; reflexivity).
  assert (Hh : Api.session_header
                 (Api.request_interceptor Sample.empty_session Sample.health_request)
               = None) by reflexivity.
  repeat split; try assumption; try reflexivity.
  intros [_ H]. specialize (H Hp). rewrite Hh in H. destruct H as [x H]. discriminate.
Qed.

(** C9, amended. On a request that does not carry the header yet, the
    interceptor attaches X-Session-ID if and only if localStorage holds a
    non-empty session_id; the header then has exactly the stored value;
    every other header and every other field of the request is left as it
    was, and without a non-empty session_id the request is returned
    unchanged. *)
Theorem session_header_iff_nonempty_session_id
    (ls : gmap string jsstring) (c : Api.config) :
  (Api.session_header c = None -> Api.attached_iff_nonempty ls c) /\
  (forall sid, ls !! "session_id" = Some sid -> sid <> [] ->
     Api.session_header (Api.request_interceptor ls c) = Some sid) /\
  (forall h, h <> "X-Session-ID" ->
     Api.headers (Api.request_interceptor ls c) !! h = Api.headers c !! h) /\
  (Api.method (Api.request_interceptor ls c) = Api.method c /\
   Api.baseURL (Api.request_interceptor ls c) = Api.baseURL c /\
   Api.url (Api.request_interceptor ls c) = Api.url c /\
   Api.params (Api.request_interceptor ls c) = Api.params c /\
   Api.data (Api.request_interceptor ls c) = Api.data c /\
   Api.timeout (Api.request_interceptor ls c) = Api.timeout c) /\
  ((forall sid, ls !! "session_id" = Some sid -> sid = []) ->
     Api.request_interceptor ls c = c).
Proof.
  unfold Api.attached_iff_nonempty, Api.session_header.
  split; [| split; [| split; [| split]]].
  - intros Hc.
    destruct (request_interceptor_cases ls c) as [(sid & Hs & Hne & Hh) | [Hs ->]].
    + rewrite Hh, lookup_insert_eq. split; [eauto | intros _; eauto].
    + rewrite Hc. split.
      * intros [x Hx]. discriminate.
      * intros (sid & Hsid & Hne). destruct Hs as [Hs | Hs]; congruence.
  - intros sid Hs Hne.
    destruct (request_interceptor_cases ls c) as [(sid' & Hs' & _ & Hh) | [Hs' _]].
    + rewrite Hh, lookup_insert_eq. congruence.
    + destruct Hs'; congruence.
  - intros h Hh.
    destruct (request_interceptor_cases ls c) as [(sid & _ & _ & Heq) | [_ ->]].
    + rewrite Heq. now apply lookup_insert_ne.
    + reflexivity.
  - apply request_interceptor_fields.
  - intros Hempty.
    destruct (request_interceptor_cases ls c) as [(sid & Hs & Hne & _) | [_ Heq]].
    + destruct (Hne (Hempty sid Hs)).
    + exact Heq.
Qed.

Lemma session_header_iff_nonempty_session_id_witness :
  Api.attached_iff_nonempty Sample.session_42 Sample.health_request /\
  Api.session_header
    (Api.request_interceptor Sample.session_42 Sample.health_request)
  = Some (lit "s-42") /\
  Api.headers (Api.request_interceptor Sample.session_42 Sample.health_request)
    !! "Content-Type"
  = Api.headers Sample.health_request !! "Content-Type" /\
  Api.request_interceptor Sample.empty_session Sample.health_request
  = Sample.health_request.
Proof.
  destruct (session_header_iff_nonempty_session_id
              Sample.session_42 Sample.health_request) as (H1 & H2 & H3 & _ & _).
  destruct (session_header_iff_nonempty_session_id
              Sample.empty_session Sample.health_request) as (_ & _ & _ & _ & H5).
  split; [| split; [| split]].
  - apply H1. reflexivity.
  - apply H2; [reflexivity | discriminate].
  - apply H3. discriminate.
  - apply H5. intros sid Hs. vm_compute in Hs. now injection Hs as <-.
Defined.

(** ** The home page: inputs without a modality *)

(** C1, as stated, fails twice. A blank text is dropped without any error
    being reported, and a recording that delivered no audio is posted to
    /api/query/voice as an empty file. *)
Lemma no_modality_counterexample :
  HomePage.modality_present (HomePage.Text (lit "   ")) = false /\
  HomePage.submit Sample.world false (HomePage.Text (lit "   "))
  = [HomePage.PreventDefault] /\
  ~ HomePage.rejected_without_request Sample.world false (HomePage.Text (lit "   ")) /\
  HomePage.modality_present (HomePage.Voice []) = false /\
  List.map Api.url
    (HomePage.requests (HomePage.submit Sample.world false (HomePage.Voice [])))
  = [lit "/api/query/voice"] /\
  ~ HomePage.rejected_without_request Sample.world false (HomePage.Voice []).
Proof.
  repeat split; try reflexivity.
  - intros [H _]. vm_compute in H. discriminate.
  - intros [_ H]. vm_compute in H. discriminate.
Qed.

(** C1, amended. A text submission that is empty or only whitespace, and an
    image selection without a file, are ignored by the page: the handler
    ends at once, no request goes to any endpoint, and no error is raised or
    shown. *)
Theorem blank_text_and_missing_image_are_ignored
    (w : Api.world) (loading : bool) (i : HomePage.input) :
  HomePage.modality_present i = false ->
  (forall delivered, i <> HomePage.Voice delivered) ->
  HomePage.requests (HomePage.submit w loading i) = [] /\
  HomePage.reports_error (HomePage.submit w loading i) = false /\
  (HomePage.submit w loading i = [HomePage.PreventDefault] \/
   HomePage.submit w loading i = []).
Proof.
  intros Hno Hkind. destruct i as [q | [f |] | delivered]; simpl in *.
  - unfold SearchInput.handleSubmit. simpl. rewrite Hno. simpl. auto.
  - discriminate.
  - auto.
  - destruct (Hkind delivered eq_refl).
Qed.

Lemma blank_text_and_missing_image_are_ignored_witness :
  HomePage.submit Sample.world false (HomePage.Text (lit "  "))
  = [HomePage.PreventDefault] /\
  HomePage.requests (HomePage.submit Sample.world false (HomePage.Image None)) = [].
Proof.
  split.
  - destruct (blank_text_and_missing_image_are_ignored Sample.world false
                (HomePage.Text (lit "  "))) as (_ & _ & [H | H]).
    + reflexivity.
    + intros delivered. discriminate.
    + exact H.
    + vm_compute in H. discriminate.
  - apply (blank_text_and_missing_image_are_ignored Sample.world false
             (HomePage.Image None)); [reflexivity | intros delivered; discriminate].
Defined.

(** ** ImageUpload *)

Lemma sort_files_rejects (maxSize : Z) (files : list File) (f : File) :
  In f files -> Dropzone.passes maxSize f = false ->
  exists r rs, snd (Dropzone.sort_files maxSize files) = r :: rs /\
               Dropzone.passes maxSize (Dropzone.file r) = false.
Proof.
  intros Hin Hbad. unfold Dropzone.sort_files.
  assert (Hne : exists g gs,
             List.filter (fun f => negb (Dropzone.passes maxSize f)) files = g :: gs /\
             Dropzone.passes maxSize g = false).
  { destruct (List.filter _ files) as [| g gs] eqn:E.
    - assert (Hf : In f (List.filter (fun f => negb (Dropzone.passes maxSize f)) files)).
      { apply filter_In. split; [exact Hin | now rewrite Hbad]. }
      rewrite E in Hf. destruct Hf.
    - exists g, gs. split; [reflexivity |].
      assert (Hg : In g (List.filter (fun f => negb (Dropzone.passes maxSize f)) files))
        by (rewrite E; now left).
      apply filter_In in Hg. destruct Hg as [_ Hg].
      now destruct (Dropzone.passes maxSize g). }
  destruct Hne as (g & gs & -> & Hg).
  destruct (1 <? length _)%nat; simpl; eauto.
Qed.

Lemma onDrop_rejection (p : ImageUpload.props) acc (r : Dropzone.rejection) rs
    (st : ImageUpload.state) :
  ImageUpload.onDrop p acc (r :: rs) st
  = ({| ImageUpload.preview := ImageUpload.preview st;
        ImageUpload.error :=
          Some (if file_size (Dropzone.file r) >? ImageUpload.maxSize p
                then ImageUpload.too_large_message p
                else ImageUpload.invalid_type_message) |}, []).
Proof.
  unfold ImageUpload.onDrop.
  destruct (file_size (Dropzone.file r) >? ImageUpload.maxSize p); reflexivity.
Qed.

(** C4, as stated, fails twice. A file named Thumbs.db that is dropped on
    the zone is no image, yet the drop ends without an error message:
    file-selector leaves the file out before it is validated. A file of
    type application/x-moz-file is no image either, yet it is accepted,
    read and handed on as the selected image. *)
Lemma unsupported_file_counterexample :
  Dropzone.accepts Sample.thumbs_db = false /\
  ImageUpload.step Sample.mime_types HomePage.upload_props
    (ImageUpload.Files Dropzone.DragAndDrop [Sample.thumbs_db]) Sample.empty_upload
  = (Sample.empty_upload, []) /\
  ~ ImageUpload.validation_fails Sample.mime_types HomePage.upload_props
      (ImageUpload.Files Dropzone.DragAndDrop [Sample.thumbs_db]) Sample.empty_upload /\
  Dropzone.accepts Sample.moz_file = false /\
  ImageUpload.step Sample.mime_types HomePage.upload_props
    (ImageUpload.Files Dropzone.DragAndDrop [Sample.moz_file]) Sample.empty_upload
  = (Sample.empty_upload,
     [ImageUpload.ReadAsDataURL Sample.moz_file;
      ImageUpload.OnImageSelect (Some Sample.moz_file)]) /\
  ~ ImageUpload.validation_fails Sample.mime_types HomePage.upload_props
      (ImageUpload.Files Dropzone.DragAndDrop [Sample.moz_file]) Sample.empty_upload.
Proof.
  repeat split; try reflexivity.
  - intros (H & _). vm_compute in H. now apply H.
  - intros (H & _). vm_compute in H. now apply H.
Qed.

Section FileSelector.

Variable types : jsstring -> option jsstring.

(** [withMimeType] touches nothing but the type. *)
Lemma withMimeType_name (f : File) :
  file_name (Dropzone.withMimeType types f) = file_name f.
Proof.
  unfold Dropzone.withMimeType.
  destruct (file_type f); [| reflexivity].
  destruct (Dropzone.extension (file_name f)); [| reflexivity].
  destruct (types _) as [t |]; [| reflexivity].
  destruct (truthy t); reflexivity.
Qed.

Lemma withMimeType_size (f : File) :
  file_size (Dropzone.withMimeType types f) = file_size f.
Proof.
  unfold Dropzone.withMimeType.
  destruct (file_type f); [| reflexivity].
  destruct (Dropzone.extension (file_name f)); [| reflexivity].
  destruct (types _) as [t |]; [| reflexivity].
  destruct (truthy t); reflexivity.
Qed.

Lemma not_ignored (f : File) :
  file_name f <> lit ".DS_Store" -> file_name f <> lit "Thumbs.db" ->
  negb (existsb (Dropzone.jsstring_eqb (file_name (Dropzone.withMimeType types f)))
          Dropzone.FILES_TO_IGNORE) = true.
Proof.
  intros Hds Hth. rewrite withMimeType_name.
  unfold Dropzone.FILES_TO_IGNORE, Dropzone.jsstring_eqb. cbn [existsb].
  rewrite !bool_decide_eq_false_2 by assumption. reflexivity.
Qed.

Lemma fromEvent_In (from : Dropzone.origin) (files : list File) (f : File) :
  In f files ->
  (from = Dropzone.DragAndDrop ->
   file_name f <> lit ".DS_Store" /\ file_name f <> lit "Thumbs.db") ->
  In (Dropzone.withMimeType types f) (Dropzone.fromEvent types from files).
Proof.
  intros Hin Hname. destruct from; cbn [Dropzone.fromEvent];
    [| now apply in_map].
  destruct (Hname eq_refl) as [Hds Hth].
  unfold Dropzone.noIgnoredFiles. apply filter_In.
  split; [now apply in_map | now apply not_ignored].
Qed.

Lemma fromEvent_single (from : Dropzone.origin) (f : File) :
  (from = Dropzone.DragAndDrop ->
   file_name f <> lit ".DS_Store" /\ file_name f <> lit "Thumbs.db") ->
  Dropzone.fromEvent types from [f] = [Dropzone.withMimeType types f].
Proof.
  intros Hname. destruct from; [| reflexivity].
  destruct (Hname eq_refl) as [Hds Hth].
  unfold Dropzone.fromEvent, Dropzone.noIgnoredFiles. cbn [List.map List.filter].
  now rewrite not_ignored.
Qed.

End FileSelector.

(** C4, amended. Take any file among those dropped on the zone or chosen in
    the file dialog, other than a dropped .DS_Store or Thumbs.db, with the
    type that file-selector completes from its extension when the browser
    gives none. When the file is larger than [maxSize] (5242880 unless the
    prop says otherwise), or is neither an image by that type or by its
    extension nor of the type application/x-moz-file, the event ends with
    an error message, [onImageSelect] is not called, no file is read and
    the preview is what it was. When the file came alone, the message is
    "File too large" if it is too large and "Invalid file type"
    otherwise. *)
Theorem image_upload_rejects_large_or_unsupported
    (types : jsstring -> option jsstring)
    (p : ImageUpload.props) (st : ImageUpload.state)
    (from : Dropzone.origin) (files : list File) (f : File) :
  In f files ->
  (from = Dropzone.DragAndDrop ->
   file_name f <> lit ".DS_Store" /\ file_name f <> lit "Thumbs.db") ->
  file_size f > ImageUpload.maxSize p \/
  (file_type (Dropzone.withMimeType types f) <> lit "application/x-moz-file" /\
   Dropzone.accepts (Dropzone.withMimeType types f) = false) ->
  ImageUpload.maxSize {| ImageUpload.maxSize_prop := None |} = 5242880 /\
  ImageUpload.validation_fails types p (ImageUpload.Files from files) st /\
  (ImageUpload.error (fst (ImageUpload.step types p (ImageUpload.Files from files) st))
     = Some (ImageUpload.too_large_message p) \/
   ImageUpload.error (fst (ImageUpload.step types p (ImageUpload.Files from files) st))
     = Some ImageUpload.invalid_type_message) /\
  (files = [f] ->
   ImageUpload.error (fst (ImageUpload.step types p (ImageUpload.Files from files) st))
   = Some (if file_size f >? ImageUpload.maxSize p
           then ImageUpload.too_large_message p
           else ImageUpload.invalid_type_message)).
Proof.
  intros Hin Hname Hbad.
  assert (Hfail : Dropzone.passes (ImageUpload.maxSize p)
                    (Dropzone.withMimeType types f) = false).
  { unfold Dropzone.passes, Dropzone.fileMatchSize. rewrite withMimeType_size.
    destruct Hbad as [Hbig | [Hmoz Hfmt]].
    - assert (Hgt : (file_size f >? ImageUpload.maxSize p) = true)
        by (apply Z.gtb_lt; lia).
      rewrite Hgt. apply andb_false_r.
    - unfold Dropzone.fileAccepted, Dropzone.jsstring_eqb.
      rewrite bool_decide_eq_false_2 by exact Hmoz. now rewrite Hfmt. }
  split; [reflexivity |].
  pose proof (fromEvent_In types from files f Hin Hname) as Hin'.
  unfold ImageUpload.validation_fails. cbn [ImageUpload.step]. unfold ImageUpload.drop.
  destruct (sort_files_rejects _ _ _ Hin' Hfail) as (r & rs & Hrej & _).
  destruct (Dropzone.sort_files (ImageUpload.maxSize p)
              (Dropzone.fromEvent types from files)) as [acc rej] eqn:E.
  simpl in Hrej. subst rej. rewrite onDrop_rejection. simpl.
  split; [split; [discriminate | split; reflexivity] |].
  split.
  - destruct (file_size (Dropzone.file r) >? ImageUpload.maxSize p); auto.
  - intros Hf. subst files. rewrite (fromEvent_single types from f Hname) in E.
    unfold Dropzone.sort_files in E. simpl in E.
    rewrite Hfail in E. simpl in E. injection E as _ <-.
    cbn [Dropzone.file]. now rewrite withMimeType_size.
Qed.

Lemma image_upload_rejects_large_or_unsupported_witness :
  ImageUpload.step Sample.mime_types {| ImageUpload.maxSize_prop := None |}
    (ImageUpload.Files Dropzone.DragAndDrop [Sample.notes_txt]) Sample.empty_upload
  = ({| ImageUpload.preview := None;
        ImageUpload.error := Some (lit "Invalid file type. Please upload an image.") |},
     []) /\
  ImageUpload.error
    (fst (ImageUpload.step Sample.mime_types {| ImageUpload.maxSize_prop := Some 8 |}
            (ImageUpload.Files Dropzone.FileDialog [Sample.photo_png])
            Sample.empty_upload))
  = Some (lit "File too large. Maximum size is 0MB").
Proof.
  split.
  - destruct (image_upload_rejects_large_or_unsupported Sample.mime_types
                {| ImageUpload.maxSize_prop := None |} Sample.empty_upload
                Dropzone.DragAndDrop [Sample.notes_txt] Sample.notes_txt)
      as (_ & (_ & Htr & Hp) & _ & He).
    + now left.
    + intros _. split; discriminate.
    + right. split; [discriminate | reflexivity].
    + specialize (He eq_refl).
      destruct (ImageUpload.step _ _ _ _) as [[pv er] tr]. simpl in *.
      now subst.
  - destruct (image_upload_rejects_large_or_unsupported Sample.mime_types
                {| ImageUpload.maxSize_prop := Some 8 |} Sample.empty_upload
                Dropzone.FileDialog [Sample.photo_png] Sample.photo_png)
      as (_ & _ & _ & He).
    + now left.
    + discriminate.
    + left. vm_compute. reflexivity.
    + exact (He eq_refl).
Defined.

Example too_large_message_default :
  ImageUpload.too_large_message {| ImageUpload.maxSize_prop := None |}
  = lit "File too large. Maximum size is 5MB".
Proof. reflexivity. Qed.

(** ** ProductCard *)

Section Card.

Import ProductCard.

Lemma child_Some (v : value) (n : node) (ns : list node) :
  child v n = Some ns <-> valid_child v = true /\ ns = [n].
Proof.
  unfold child. destruct (valid_child v).
  - split; [intros H; apply (inj Some) in H; now subst | now intros [_ ->]].
  - split; [discriminate | intros [H _]; discriminate].
Qed.

Lemma jsx_and_child_Some (a : value) (n : node) (ns : list node) :
  jsx_and_child a n = Some ns <->
  (truthy_value a = true -> valid_child a = true) /\ ns = jsx_and a [n].
Proof.
  unfold jsx_and_child, jsx_and. destruct (truthy_value a).
  - rewrite child_Some. split; [intros [H ->]; auto | intros [H ->]; auto].
  - split; [intros H; apply (inj Some) in H; now subst | now intros [_ ->]].
Qed.

Lemma title_nodes_Some (id name : value) (ns : list node) :
  title_nodes id name = Some ns <->
  coercible id = true /\ valid_child name = true /\ ns = [Title id name].
Proof.
  unfold title_nodes. destruct (coercible id).
  - rewrite child_Some. tauto.
  - split; [discriminate | intros [H _]; discriminate].
Qed.

Lemma image_nodes_Some (images name : value) (ns : list node) :
  image_nodes images name = Some ns ->
  (exists src, ns = [Img src name]) \/ ns = [NoImage].
Proof.
  assert (Himg : forall src, img src name = Some ns -> exists src, ns = [Img src name]).
  { intros src. unfold img. destruct (coercible src); [| discriminate].
    intros H. apply (inj Some) in H. eauto. }
  assert (Hno : Some [NoImage] = Some ns -> ns = [NoImage]).
  { intros H. apply (inj Some) in H. now subst. }
  destruct images as [| | | | [| c s] | [| x l] | fs]; cbn [image_nodes]; eauto.
  destruct (coercible (lookup_field "length" fs)); [| discriminate].
  destruct (positive (lookup_field "length" fs)); eauto.
Qed.

Lemma price_nodes_Some (bestPrice : value) (prices : list node) :
  price_nodes bestPrice = Some prices <->
  (truthy_value bestPrice = false /\ prices = jsx_and bestPrice []) \/
  (truthy_value bestPrice = true /\
   (truthy_value (get "retailer" bestPrice) = true ->
    valid_child (get "retailer" bestPrice) = true) /\
   exists a, price_amount bestPrice = Some a /\
             prices = Price a :: jsx_and (get "retailer" bestPrice)
                                   [Retailer (get "retailer" bestPrice)]).
Proof.
  unfold price_nodes. destruct (truthy_value bestPrice).
  - destruct (price_amount bestPrice) as [a |]; cbn [mbind option_bind].
    + destruct (jsx_and_child _ _) as [retailer |] eqn:Hr; cbn [mbind option_bind].
      * apply jsx_and_child_Some in Hr. destruct Hr as [Hv ->].
        split.
        -- intros H. apply (inj Some) in H. subst. right. eauto.
        -- intros [[H _] | (_ & _ & b & Hb & ->)]; [discriminate |].
           apply (inj Some) in Hb. now subst.
      * split; [discriminate |].
        intros [[H _] | (_ & Hv & b & _ & ->)]; [discriminate |].
        assert (Hs : jsx_and_child (get "retailer" bestPrice)
                       (Retailer (get "retailer" bestPrice))
                     = Some (jsx_and (get "retailer" bestPrice)
                               [Retailer (get "retailer" bestPrice)]))
          by (apply jsx_and_child_Some; auto).
        congruence.
    + split; [discriminate |].
      intros [[H _] | (_ & _ & b & Hb & _)]; discriminate.
  - split.
    + intros H. apply (inj Some) in H. subst. now left.
    + intros [[_ ->] | (H & _)]; [reflexivity | discriminate].
Qed.

(** The card, part by part. *)
Lemma render_layout (p : props) (card : list node) :
  render p = Some card ->
  exists image prices,
    is_missing (product p) = false /\
    image_nodes (get "images" (item_of (product p))) (get "name" (item_of (product p)))
      = Some image /\
    price_nodes (bestPrice_of (product p)) = Some prices /\
    card
    = image ++ badge_nodes (matchScore p)
      ++ [Category (get "category" (item_of (product p)))]
      ++ jsx_and (get "brand" (get "features" (item_of (product p))))
           [Brand (get "brand" (get "features" (item_of (product p))))]
      ++ [Title (get "id" (item_of (product p))) (get "name" (item_of (product p)))]
      ++ [Description (get "description" (item_of (product p)))]
      ++ reason_nodes (matchReason p)
      ++ [Rating (renderRating 4); ReviewCount (lit "(128)")]
      ++ prices ++ [CartButton].
Proof.
  unfold render, bestPrice_of, item_of.
  destruct (is_missing (product p)); [discriminate |]. cbv zeta.
  destruct (image_nodes _ _) as [image |]; cbn [mbind option_bind]; [| discriminate].
  destruct (child _ (Category _)) as [category |] eqn:Hc;
    cbn [mbind option_bind]; [| discriminate].
  destruct (jsx_and_child _ _) as [brand |] eqn:Hb;
    cbn [mbind option_bind]; [| discriminate].
  destruct (title_nodes _ _) as [title |] eqn:Ht;
    cbn [mbind option_bind]; [| discriminate].
  destruct (child _ (Description _)) as [description |] eqn:Hd;
    cbn [mbind option_bind]; [| discriminate].
  destruct (price_nodes _) as [prices |]; cbn [mbind option_bind]; [| discriminate].
  intros H. apply (inj Some) in H. subst card.
  apply child_Some in Hc, Hd. destruct Hc as [_ ->]. destruct Hd as [_ ->].
  apply jsx_and_child_Some in Hb. destruct Hb as [_ ->].
  apply title_nodes_Some in Ht. destruct Ht as (_ & _ & ->).
  exists image, prices. repeat split.
Qed.

Context {A : Type} (f : node -> option A).

Hypothesis f_text : f (Text (lit "0")) = None.
Hypothesis f_img : forall src alt, f (Img src alt) = None.
Hypothesis f_placeholder : f NoImage = None.
Hypothesis f_category : forall v, f (Category v) = None.
Hypothesis f_brand : forall v, f (Brand v) = None.
Hypothesis f_title : forall id name, f (Title id name) = None.
Hypothesis f_description : forall v, f (Description v) = None.
Hypothesis f_retailer : forall v, f (Retailer v) = None.
Hypothesis f_cart : f CartButton = None.

Lemma omap_jsx_and (a : value) (b : list node) :
  omap f (jsx_and a b) = if truthy_value a then omap f b else [].
Proof.
  unfold jsx_and. destruct (truthy_value a); [reflexivity |].
  destruct a; try reflexivity. cbn [omap list_omap]. now rewrite f_text.
Qed.

(** Of a card, only the badge, the reason, the rating line and the price
    can be anything other than the nine kinds of node above. *)
Lemma omap_card (p : props) (card : list node) :
  render p = Some card ->
  omap f card
  = omap f (badge_nodes (matchScore p))
    ++ omap f (reason_nodes (matchReason p))
    ++ omap f [Rating (renderRating 4); ReviewCount (lit "(128)")]
    ++ (if truthy_value (bestPrice_of (product p))
        then match price_amount (bestPrice_of (product p)) with
             | Some a => omap f [Price a]
             | None => []
             end
        else []).
Proof.
  intros Hr. destruct (render_layout p card Hr) as (image & prices & _ & Hi & Hp & ->).
  assert (Himage : omap f image = []).
  { destruct (image_nodes_Some _ _ _ Hi) as [[src ->] | ->];
      cbn [omap list_omap]; now rewrite ?f_img, ?f_placeholder. }
  assert (Hprices : omap f prices
                    = if truthy_value (bestPrice_of (product p))
                      then match price_amount (bestPrice_of (product p)) with
                           | Some a => omap f [Price a]
                           | None => []
                           end
                      else []).
  { apply price_nodes_Some in Hp.
    destruct Hp as [[-> ->] | (-> & _ & a & -> & ->)].
    - rewrite omap_jsx_and. now destruct (truthy_value _).
    - change (Price a :: ?l) with ([Price a] ++ l). rewrite omap_app, omap_jsx_and.
      cbn [omap list_omap]. rewrite f_retailer.
      destruct (truthy_value _); now rewrite app_nil_r. }
  rewrite !omap_app, Himage, Hprices, omap_jsx_and.
  cbn [omap list_omap].
  rewrite f_category, f_brand, f_title, f_description, f_cart.
  destruct (truthy_value (get "brand" _)); cbn [app]; now rewrite ?app_nil_r.
Qed.

End Card.

Section CardRating.

Import ProductCard.

(** Whatever the product, the card shows four filled stars and "(128)". *)
Lemma render_rating_fixed (p : props) (card : list node) :
  render p = Some card ->
  shown_ratings card = [4] /\ shown_review_counts card = [lit "(128)"].
Proof.
  intros Hr. unfold shown_ratings, shown_review_counts.
  split.
  all: rewrite omap_card with (p := p) by first [exact Hr | reflexivity].
  all: unfold badge_nodes, reason_nodes.
  all: destruct (matchScore p) as [s |], (matchReason p) as [r |];
    rewrite ?omap_jsx_and by reflexivity;
    repeat match goal with |- context [truthy_value ?v] => destruct (truthy_value v) end;
    repeat match goal with |- context [price_amount ?v] => destruct (price_amount v) end;
    reflexivity.
Qed.

End CardRating.

(** C6. The card of a product that the tools rated 2 on 5 reviews shows
    four filled stars and the review count "(128)"; neither 4 nor 128
    occurs anywhere in the tool output. The rating line of the card is a
    constant of the component. *)
Theorem product_card_rating_not_from_tool_output :
  ProductCard.get "rating" (ProductCard.get "product" Sample.jacket)
    = ProductCard.VNum 2 /\
  ProductCard.get "review_count" (ProductCard.get "product" Sample.jacket)
    = ProductCard.VNum 5 /\
  ProductCard.occurs 4 Sample.jacket = false /\
  ProductCard.occurs 128 Sample.jacket = false /\
  exists card,
    ProductCard.render Sample.jacket_card = Some card /\
    ProductCard.shown_ratings card = [4] /\
    ProductCard.shown_review_counts card = [lit "(128)"] /\
    In (ProductCard.Price 180) card.
Proof.
  repeat split; try reflexivity.
  destruct (ProductCard.render Sample.jacket_card) as [card |] eqn:E;
    [| vm_compute in E; discriminate].
  exists card. split; [reflexivity |].
  destruct (render_rating_fixed _ _ E) as [Hr Hc].
  repeat split; try assumption.
  vm_compute in E. injection E as <-. simpl. tauto.
Qed.

(** ** The orchestrator *)

Section Pipeline.

Import Orchestrator.

Lemma apply_threshold_low (cfg : Config) (i : Intent) :
  (confidence i < confidence_threshold cfg)%Q ->
  apply_threshold cfg i
  = {| kind := clarify; confidence := confidence i; filters := filters i |}.
Proof.
  intros Hlow. unfold apply_threshold.
  destruct (Qlt_le_dec (confidence i) (confidence_threshold cfg)) as [_ | Hge];
    [reflexivity |].
  destruct (Qlt_not_le _ _ Hlow Hge).
Qed.

Lemma apply_threshold_high (cfg : Config) (i : Intent) :
  (confidence_threshold cfg <= confidence i)%Q -> apply_threshold cfg i = i.
Proof.
  intros Hge. unfold apply_threshold.
  destruct (Qlt_le_dec (confidence i) (confidence_threshold cfg)) as [Hlow | _];
    [| reflexivity].
  destruct (Qlt_not_le _ _ Hlow Hge).
Qed.

End Pipeline.

(** C2. When the classifier's confidence is below the configured threshold
    (0.5 in the default configuration), the turn's intent is [clarify], no
    tool is executed, no tool invocation is recorded for the turn and the
    response is a clarification question. At or above the threshold the
    classified intent is kept and, unless it is itself [clarify], one
    invocation is recorded per selected tool. *)
Theorem low_confidence_records_no_invocation
    (cfg : Orchestrator.Config) (registry : list Orchestrator.Tool)
    (i : Orchestrator.Intent) :
  Orchestrator.confidence_threshold Orchestrator.default_config = 1 # 2 /\
  ((Orchestrator.confidence i < Orchestrator.confidence_threshold cfg)%Q ->
   Orchestrator.kind (Orchestrator.turn_intent (Orchestrator.run_turn cfg registry i))
     = Orchestrator.clarify /\
   Orchestrator.turn_invocations (Orchestrator.run_turn cfg registry i) = [] /\
   Orchestrator.turn_response (Orchestrator.run_turn cfg registry i)
     = Orchestrator.ClarificationQuestion
         (Orchestrator.turn_intent (Orchestrator.run_turn cfg registry i))) /\
  ((Orchestrator.confidence_threshold cfg <= Orchestrator.confidence i)%Q ->
   Orchestrator.kind i <> Orchestrator.clarify ->
   Orchestrator.turn_intent (Orchestrator.run_turn cfg registry i) = i /\
   Orchestrator.turn_invocations (Orchestrator.run_turn cfg registry i)
     = Orchestrator.execute_tools registry i).
Proof.
  split; [reflexivity |]. split.
  - intros Hlow. unfold Orchestrator.run_turn.
    rewrite (apply_threshold_low _ _ Hlow). simpl. repeat split.
  - intros Hge Hk. unfold Orchestrator.run_turn.
    rewrite (apply_threshold_high _ _ Hge).
    destruct (Orchestrator.kind i) eqn:E; simpl; try (split; reflexivity).
    now destruct Hk.
Qed.

Lemma low_confidence_records_no_invocation_witness :
  Orchestrator.turn_invocations
    (Orchestrator.run_turn Orchestrator.default_config [Sample.product_search]
       Sample.vague_search) = [] /\
  Orchestrator.turn_invocations
    (Orchestrator.run_turn Orchestrator.default_config [Sample.product_search]
       Sample.clear_search)
  = Orchestrator.execute_tools [Sample.product_search] Sample.clear_search.
Proof.
  split.
  - apply (low_confidence_records_no_invocation Orchestrator.default_config
             [Sample.product_search] Sample.vague_search).
    reflexivity.
  - apply (low_confidence_records_no_invocation Orchestrator.default_config
             [Sample.product_search] Sample.clear_search).
    + discriminate.
    + discriminate.
Defined.

(** ** The merged product list *)

Section Ranking.

Import Orchestrator.

#[local] Instance precedes_total : Total precedes.
Proof.
  intros a b. unfold precedes.
  destruct (Q_dec (score a) (score b)) as [[Hlt | Hgt] | Heq].
  - right. now left.
  - left. now left.
  - destruct (total String.le (r_id a) (r_id b)) as [Hs | Hs].
    + left. right. now split.
    + right. right. split; [now symmetry | exact Hs].
Qed.

#[local] Instance precedes_trans : Transitive precedes.
Proof.
  intros a b c [Hab | [Hab Hsab]] [Hbc | [Hbc Hsbc]]; unfold precedes.
  - left. now apply Qlt_trans with (score b).
  - left. now rewrite <- Hbc.
  - left. now rewrite Hab.
  - right. split; [now rewrite Hab | now transitivity (r_id b)].
Qed.

(** Two entries that may stand either way round have the same id. *)
Lemma precedes_antisym_id (a b : Ranked) :
  precedes a b -> precedes b a -> r_id a = r_id b.
Proof.
  intros [Hab | [Hab Hsab]] [Hba | [Hba Hsba]].
  - destruct (Qlt_irrefl (score a)). now apply Qlt_trans with (score b).
  - rewrite Hba in Hab. destruct (Qlt_irrefl _ Hab).
  - rewrite Hab in Hba. destruct (Qlt_irrefl _ Hba).
  - now apply (anti_symm String.le).
Qed.

Lemma absorb_ids (x : Ranked) (acc : list Ranked) :
  List.map r_id (absorb x acc)
  = if bool_decide (r_id x ∈ List.map r_id acc)
    then List.map r_id acc
    else List.map r_id acc ++ [r_id x].
Proof.
  induction acc as [| y acc IH].
  - cbn [absorb List.map app].
    case_bool_decide as H; [now apply elem_of_nil in H | reflexivity].
  - cbn [absorb List.map].
    destruct (String.eqb (r_id x) (r_id y)) eqn:E.
    + apply String.eqb_eq in E. cbn [List.map r_id]. clear IH.
      case_bool_decide as H; [reflexivity |].
      destruct H. rewrite E. left.
    + apply String.eqb_neq in E. cbn [List.map]. rewrite IH.
      case_bool_decide as H1; case_bool_decide as H2; try reflexivity.
      * destruct H2. now right.
      * apply elem_of_cons in H2. destruct H2 as [H2 | H2]; [now destruct E | now destruct H1].
Qed.

Lemma absorb_NoDup (x : Ranked) (acc : list Ranked) :
  NoDup (List.map r_id acc) -> NoDup (List.map r_id (absorb x acc)).
Proof.
  intros Hnd. rewrite absorb_ids.
  destruct (bool_decide (r_id x ∈ List.map r_id acc)) eqn:B; [exact Hnd |].
  apply bool_decide_eq_false_1 in B.
  apply NoDup_app. split; [exact Hnd |]. split.
  - intros y Hy Hx. apply list_elem_of_singleton in Hx. now subst.
  - apply NoDup_singleton.
Qed.

Lemma fold_absorb_NoDup (l acc : list Ranked) :
  NoDup (List.map r_id acc) ->
  NoDup (List.map r_id (fold_left (fun acc x => absorb x acc) l acc)).
Proof.
  revert acc. induction l as [| x l IH]; intros acc Hnd; simpl; [exact Hnd |].
  apply IH. now apply absorb_NoDup.
Qed.

Lemma dedup_NoDup (l : list Ranked) : NoDup (List.map r_id (dedup l)).
Proof. apply fold_absorb_NoDup. constructor. Qed.

(** Every id that comes in is in the merged list, and no other. *)
Lemma fold_absorb_ids (l acc : list Ranked) (i : string) :
  i ∈ List.map r_id (fold_left (fun acc x => absorb x acc) l acc)
  <-> i ∈ List.map r_id acc \/ i ∈ List.map r_id l.
Proof.
  revert acc. induction l as [| x l IH]; intros acc; simpl.
  - split; [now left | intros [H | H]; [exact H | now apply elem_of_nil in H]].
  - rewrite IH, absorb_ids.
    destruct (bool_decide (r_id x ∈ List.map r_id acc)) eqn:B.
    + apply bool_decide_eq_true_1 in B. rewrite elem_of_cons.
      split; [tauto |]. intros [H | [-> | H]]; tauto.
    + rewrite elem_of_app, list_elem_of_singleton, elem_of_cons. tauto.
Qed.

Lemma NoDup_ids_inj (l : list Ranked) (a b : Ranked) :
  NoDup (List.map r_id l) -> a ∈ l -> b ∈ l -> r_id a = r_id b -> a = b.
Proof.
  induction l as [| y l IH]; simpl; intros Hnd Ha Hb Hid.
  - now apply elem_of_nil in Ha.
  - apply NoDup_cons in Hnd. destruct Hnd as [Hy Hnd].
    apply elem_of_cons in Ha. apply elem_of_cons in Hb.
    destruct Ha as [-> | Ha], Hb as [-> | Hb].
    + reflexivity.
    + destruct Hy. rewrite Hid. now apply (list_elem_of_fmap_2 r_id).
    + destruct Hy. rewrite <- Hid. now apply (list_elem_of_fmap_2 r_id).
    + now apply IH.
Qed.

(** Sorting a list of entries with distinct ids gives one result, whatever
    order the entries arrive in. *)
Lemma merge_sort_order_independent (l1 l2 : list Ranked) :
  l1 ≡ₚ l2 -> NoDup (List.map r_id l1) ->
  merge_sort precedes l1 = merge_sort precedes l2.
Proof.
  intros Hperm Hnd.
  apply (StronglySorted_unique_strong precedes).
  - intros a b Ha Hb Hab Hba.
    rewrite merge_sort_Permutation in Ha.
    rewrite merge_sort_Permutation, <- Hperm in Hb.
    apply (NoDup_ids_inj l1); auto using precedes_antisym_id.
  - apply StronglySorted_merge_sort; apply _.
  - apply StronglySorted_merge_sort; apply _.
  - now rewrite !merge_sort_Permutation.
Qed.

(** *** De-duplication keeps the highest score of each product *)

Lemma higher_spec (a b : Q) :
  (a <= higher a b)%Q /\ (b <= higher a b)%Q /\
  (higher a b = a \/ higher a b = b).
Proof.
  unfold higher. destruct (Qlt_le_dec a b) as [Hlt | Hle].
  - split; [now apply Qlt_le_weak | split; [apply Qle_refl | now right]].
  - split; [apply Qle_refl | split; [exact Hle | now left]].
Qed.

Lemma absorb_cases (x : Ranked) (acc : list Ranked) :
  ((r_id x ∉ List.map r_id acc) /\ absorb x acc = acc ++ [x]) \/
  (exists l1 y l2,
     acc = l1 ++ y :: l2 /\ r_id x = r_id y /\
     absorb x acc
     = l1 ++ {| r_id := r_id y; score := higher (score y) (score x);
                reasons := distinct_reasons (reasons y) (reasons x) |} :: l2).
Proof.
  induction acc as [| y acc IH]; cbn [absorb List.map].
  - left. split; [apply not_elem_of_nil | reflexivity].
  - destruct (String.eqb (r_id x) (r_id y)) eqn:E.
    + apply String.eqb_eq in E. right. exists [], y, acc. auto.
    + apply String.eqb_neq in E.
      destruct IH as [[Hnotin ->] | (l1 & z & l2 & -> & Hid & ->)].
      * left. split; [| reflexivity].
        intros H. apply elem_of_cons in H. destruct H as [H | H]; auto.
      * right. exists (y :: l1), z, l2. auto.
Qed.

Lemma best_of_snoc_other (seen : list Ranked) (x e : Ranked) :
  r_id x <> r_id e -> best_of seen e -> best_of (seen ++ [x]) e.
Proof.
  intros Hne [Hmax (w & Hw & Hid & Hsc)]. split.
  - intros z Hz Hzid. apply elem_of_app in Hz. destruct Hz as [Hz | Hz].
    + now apply Hmax.
    + apply list_elem_of_singleton in Hz. subst z. now destruct Hne.
  - exists w. split; [apply elem_of_app; now left | now split].
Qed.

Lemma absorbed_step (seen acc : list Ranked) (x : Ranked) :
  absorbed seen acc -> absorbed (seen ++ [x]) (absorb x acc).
Proof.
  intros (Hnd & Hbest & Hids).
  split; [now apply absorb_NoDup |].
  destruct (absorb_cases x acc) as [[Hnew ->] | (l1 & y & l2 & -> & Hid & ->)].
  - split.
    + intros e He. apply elem_of_app in He. destruct He as [He | He].
      * apply best_of_snoc_other; [| now apply Hbest].
        intros Heq. apply Hnew. rewrite Heq.
        now apply (list_elem_of_fmap_2 r_id).
      * apply list_elem_of_singleton in He. subst e. split.
        -- intros z Hz Hzid. apply elem_of_app in Hz. destruct Hz as [Hz | Hz].
           ++ destruct Hnew. rewrite <- Hzid. now apply Hids.
           ++ apply list_elem_of_singleton in Hz. subst z. apply Qle_refl.
        -- exists x. split; [apply elem_of_app; right; now left |].
           split; [reflexivity | apply Qeq_refl].
    + intros z Hz. rewrite map_app. apply elem_of_app.
      apply elem_of_app in Hz. destruct Hz as [Hz | Hz]; [left; now apply Hids |].
      apply list_elem_of_singleton in Hz. subst z. right. now left.
  - assert (Hy : best_of seen y)
      by (apply Hbest; apply elem_of_app; right; now left).
    assert (Hothers : forall e, e ∈ l1 ++ l2 -> r_id x <> r_id e).
    { intros e He Heq. rewrite map_app in Hnd. simpl in Hnd.
      apply NoDup_app in Hnd. destruct Hnd as (_ & Hdisj & Hnd2).
      apply NoDup_cons in Hnd2. destruct Hnd2 as [Hy2 _].
      apply elem_of_app in He. destruct He as [He | He].
      - apply (Hdisj (r_id e)); [now apply (list_elem_of_fmap_2 r_id) |].
        rewrite <- Heq, Hid. left.
      - apply Hy2. rewrite <- Hid, Heq. now apply (list_elem_of_fmap_2 r_id). }
    destruct (higher_spec (score y) (score x)) as (Hge_y & Hge_x & Hwhich).
    split.
    + intros e He. apply elem_of_app in He. destruct He as [He | He];
        [| apply elem_of_cons in He; destruct He as [-> | He]].
      * apply best_of_snoc_other.
        -- apply Hothers. apply elem_of_app. now left.
        -- apply Hbest. apply elem_of_app. now left.
      * destruct Hy as [Hmax (w & Hw & Hwid & Hwsc)]. split; simpl.
        -- intros z Hz Hzid. apply elem_of_app in Hz. destruct Hz as [Hz | Hz].
           ++ apply Qle_trans with (score y); [now apply Hmax | exact Hge_y].
           ++ apply list_elem_of_singleton in Hz. subst z. exact Hge_x.
        -- destruct Hwhich as [-> | ->].
           ++ exists w. split; [apply elem_of_app; now left | now split].
           ++ exists x. split; [apply elem_of_app; right; now left |].
              split; [exact Hid | apply Qeq_refl].
      * apply best_of_snoc_other.
        -- apply Hothers. apply elem_of_app. now right.
        -- apply Hbest. apply elem_of_app. right. now right.
    + intros z Hz. rewrite map_app. simpl.
      assert (Hin : r_id z ∈ List.map r_id (l1 ++ y :: l2)).
      { apply elem_of_app in Hz. destruct Hz as [Hz | Hz]; [now apply Hids |].
        apply list_elem_of_singleton in Hz. subst z. rewrite Hid.
        apply (list_elem_of_fmap_2 r_id). apply elem_of_app. right. now left. }
      rewrite map_app in Hin. exact Hin.
Qed.

Lemma absorbed_fold (l seen acc : list Ranked) :
  absorbed seen acc ->
  absorbed (seen ++ l) (fold_left (fun acc x => absorb x acc) l acc).
Proof.
  revert seen acc. induction l as [| x l IH]; intros seen acc H; simpl.
  - now rewrite app_nil_r.
  - replace (seen ++ x :: l) with ((seen ++ [x]) ++ l)
      by (now rewrite <- app_assoc).
    apply IH. now apply absorbed_step.
Qed.

Lemma dedup_absorbed (l : list Ranked) : absorbed l (dedup l).
Proof.
  apply (absorbed_fold l [] []). split; [constructor |].
  split; intros e He; now apply elem_of_nil in He.
Qed.

Lemma best_of_Permutation (l1 l2 : list Ranked) (e : Ranked) :
  l1 ≡ₚ l2 -> best_of l1 e -> best_of l2 e.
Proof.
  intros Hperm [Hmax (w & Hw & Hid & Hsc)]. split.
  - intros x Hx. apply Hmax. now rewrite Hperm.
  - exists w. split; [now rewrite <- Hperm | now split].
Qed.

Lemma best_of_same (l : list Ranked) (a b : Ranked) :
  best_of l a -> best_of l b -> r_id a = r_id b -> same_rank a b.
Proof.
  intros [Hmax_a (wa & Hwa & Hida & Hsca)] [Hmax_b (wb & Hwb & Hidb & Hscb)] Hid.
  split; [exact Hid |]. apply Qle_antisym.
  - rewrite <- Hsca. apply Hmax_b; [exact Hwa | congruence].
  - rewrite <- Hscb. apply Hmax_a; [exact Hwb | congruence].
Qed.

(** *** The order of the merged list does not depend on the arrival order *)

Lemma precedes_same_r (a b b' : Ranked) :
  same_rank b b' -> precedes a b -> precedes a b'.
Proof.
  intros [Hid Hsc] [Hlt | [Heq Hle]]; unfold precedes.
  - left. now rewrite <- Hsc.
  - right. split; [now rewrite <- Hsc | now rewrite <- Hid].
Qed.

Lemma precedes_both_same (a b : Ranked) :
  precedes a b -> precedes b a -> same_rank a b.
Proof.
  intros Hab Hba. split; [now apply precedes_antisym_id |].
  destruct Hab as [Hab | [Hab _]]; [| exact Hab].
  destruct Hba as [Hba | [Hba _]]; [| now symmetry].
  destruct (Qlt_irrefl (score a)). now apply Qlt_trans with (score b).
Qed.

Lemma same_rank_sym (a b : Ranked) : same_rank a b -> same_rank b a.
Proof. intros [Hid Hsc]. split; now symmetry. Qed.

Lemma sorted_same_rank (l1 l2 : list Ranked) :
  StronglySorted precedes l1 -> StronglySorted precedes l2 ->
  NoDup (List.map r_id l1) -> NoDup (List.map r_id l2) ->
  (forall a, a ∈ l1 -> exists b, b ∈ l2 /\ same_rank a b) ->
  (forall b, b ∈ l2 -> exists a, a ∈ l1 /\ same_rank a b) ->
  Forall2 same_rank l1 l2.
Proof.
  revert l2. induction l1 as [| a t1 IH]; intros l2 Hs1 Hs2 Hnd1 Hnd2 H12 H21.
  - destruct l2 as [| b t2]; [constructor |].
    destruct (H21 b) as (a & Ha & _); [left | now apply elem_of_nil in Ha].
  - destruct l2 as [| b t2].
    { destruct (H12 a) as (b & Hb & _); [left | now apply elem_of_nil in Hb]. }
    apply StronglySorted_cons in Hs1. destruct Hs1 as [Ha_all Hs1].
    apply StronglySorted_cons in Hs2. destruct Hs2 as [Hb_all Hs2].
    rewrite Forall_forall in Ha_all, Hb_all.
    simpl in Hnd1, Hnd2.
    apply NoDup_cons in Hnd1. destruct Hnd1 as [Ha_new Hnd1].
    apply NoDup_cons in Hnd2. destruct Hnd2 as [Hb_new Hnd2].
    assert (Hab : same_rank a b).
    { destruct (H12 a) as (a' & Ha' & Haa'); [left |].
      destruct (H21 b) as (b' & Hb' & Hbb'); [left |].
      apply elem_of_cons in Ha'. destruct Ha' as [-> | Ha']; [exact Haa' |].
      apply elem_of_cons in Hb'. destruct Hb' as [-> | Hb']; [exact Hbb' |].
      apply precedes_both_same.
      - apply (precedes_same_r a b' b); [exact Hbb' | now apply Ha_all].
      - apply (precedes_same_r b a' a); [now apply same_rank_sym | now apply Hb_all]. }
    constructor; [exact Hab |].
    apply IH; try assumption.
    + intros x Hx. destruct (H12 x) as (y & Hy & Hxy); [now right |].
      exists y. split; [| exact Hxy].
      apply elem_of_cons in Hy. destruct Hy as [-> | Hy]; [| exact Hy].
      destruct Ha_new. destruct Hab as [-> _]. destruct Hxy as [<- _].
      now apply (list_elem_of_fmap_2 r_id).
    + intros y Hy. destruct (H21 y) as (x & Hx & Hxy); [now right |].
      exists x. split; [| exact Hxy].
      apply elem_of_cons in Hx. destruct Hx as [-> | Hx]; [| exact Hx].
      destruct Hb_new. destruct Hab as [<- _]. destruct Hxy as [-> _].
      now apply (list_elem_of_fmap_2 r_id).
Qed.

Lemma dedup_same_rank (l1 l2 : list Ranked) (a : Ranked) :
  l1 ≡ₚ l2 -> a ∈ dedup l1 -> exists b, b ∈ dedup l2 /\ same_rank a b.
Proof.
  intros Hperm Ha.
  destruct (dedup_absorbed l1) as (_ & Hbest1 & _).
  destruct (dedup_absorbed l2) as (_ & Hbest2 & Hids2).
  pose proof (Hbest1 a Ha) as Hbest_a.
  destruct Hbest_a as [Hmax (w & Hw & Hwid & Hwsc)].
  assert (Hin : r_id a ∈ List.map r_id (dedup l2)).
  { rewrite <- Hwid. apply Hids2. now rewrite <- Hperm. }
  apply list_elem_of_fmap in Hin. destruct Hin as (b & Hid & Hb).
  exists b. split; [exact Hb |].
  apply (best_of_same l2); [| now apply Hbest2 | exact Hid].
  apply (best_of_Permutation l1); [exact Hperm | now apply Hbest1].
Qed.

(** Tool results that arrive in another order merge to the same products
    in the same order with equal scores. *)
Lemma merge_rank_arrival (cfg : Config) (results results' : list Candidate) :
  results ≡ₚ results' ->
  Forall2 same_rank (merge_rank cfg results) (merge_rank cfg results').
Proof.
  intros Hperm. unfold merge_rank.
  assert (Hp : List.map (rank_candidate cfg) results
               ≡ₚ List.map (rank_candidate cfg) results')
    by now apply Permutation_map.
  set (l1 := List.map (rank_candidate cfg) results) in *.
  set (l2 := List.map (rank_candidate cfg) results') in *.
  assert (Hids : forall l, NoDup (List.map r_id (merge_sort precedes (dedup l)))).
  { intros l.
    assert (H : List.map r_id (merge_sort precedes (dedup l))
                ≡ₚ List.map r_id (dedup l))
      by apply Permutation_map, merge_sort_Permutation.
    rewrite H. apply dedup_NoDup. }
  apply sorted_same_rank.
  - apply StronglySorted_merge_sort; apply _.
  - apply StronglySorted_merge_sort; apply _.
  - apply Hids.
  - apply Hids.
  - intros a Ha. rewrite merge_sort_Permutation in Ha.
    destruct (dedup_same_rank l1 l2 a Hp Ha) as (b & Hb & Hab).
    exists b. split; [now rewrite merge_sort_Permutation | exact Hab].
  - intros b Hb. rewrite merge_sort_Permutation in Hb.
    destruct (dedup_same_rank l2 l1 b (symmetry Hp) Hb) as (a & Ha & Hba).
    exists a. split; [now rewrite merge_sort_Permutation | now apply same_rank_sym].
Qed.

Lemma merge_rank_sorted (cfg : Config) (results : list Candidate) :
  StronglySorted precedes (merge_rank cfg results).
Proof. apply StronglySorted_merge_sort; apply _. Qed.

Lemma merge_rank_NoDup (cfg : Config) (results : list Candidate) :
  NoDup (List.map r_id (merge_rank cfg results)).
Proof.
  unfold merge_rank.
  assert (H : List.map r_id (merge_sort precedes (dedup (List.map (rank_candidate cfg) results)))
              ≡ₚ List.map r_id (dedup (List.map (rank_candidate cfg) results))).
  { apply Permutation_map, merge_sort_Permutation. }
  rewrite H. apply dedup_NoDup.
Qed.

Lemma merge_rank_ids (cfg : Config) (results : list Candidate) (i : string) :
  i ∈ List.map r_id (merge_rank cfg results) <-> i ∈ List.map product_id results.
Proof.
  unfold merge_rank.
  assert (H : List.map r_id (merge_sort precedes (dedup (List.map (rank_candidate cfg) results)))
              ≡ₚ List.map r_id (dedup (List.map (rank_candidate cfg) results))).
  { apply Permutation_map, merge_sort_Permutation. }
  rewrite H. unfold dedup. rewrite fold_absorb_ids. simpl.
  rewrite List.map_map. simpl.
  split; [intros [Hn | Hi]; [now apply elem_of_nil in Hn | exact Hi] | now right].
Qed.

End Ranking.

Example merge_rank_sample :
  List.map (fun r => (Orchestrator.r_id r, Orchestrator.reasons r))
    (Orchestrator.merge_rank Orchestrator.default_config Sample.found)
  = [("p-3", ["brand"]); ("p-1", ["material"]); ("p-2", ["color"; "price"])].
Proof. vm_compute. reflexivity. Qed.

(** C3. The merged product list is in descending order of combined score,
    and entries of equal score are in ascending lexicographic order of their
    product ids, which are pairwise distinct: of two entries the earlier has
    the strictly higher score, or an equal score and the strictly smaller
    id. The list holds exactly the product ids of the tool results. The
    order leaves no freedom: in whatever order the de-duplicated entries are
    handed to the sort, the same list comes out; and in whatever order the
    tool results arrive, the merged list has the same products in the same
    order with equal scores. *)
Theorem merged_list_is_ordered_and_reproducible
    (cfg : Orchestrator.Config) (results : list Orchestrator.Candidate) :
  StronglySorted Orchestrator.precedes (Orchestrator.merge_rank cfg results) /\
  (forall (i j : nat) (a b : Orchestrator.Ranked),
     (i < j)%nat ->
     Orchestrator.merge_rank cfg results !! i = Some a ->
     Orchestrator.merge_rank cfg results !! j = Some b ->
     (Orchestrator.score b < Orchestrator.score a)%Q \/
     ((Orchestrator.score a == Orchestrator.score b)%Q /\
      String.le (Orchestrator.r_id a) (Orchestrator.r_id b) /\
      Orchestrator.r_id a <> Orchestrator.r_id b)) /\
  (forall id, id ∈ List.map Orchestrator.r_id (Orchestrator.merge_rank cfg results)
              <-> id ∈ List.map Orchestrator.product_id results) /\
  (forall arrival,
     arrival ≡ₚ Orchestrator.dedup (List.map (Orchestrator.rank_candidate cfg) results) ->
     merge_sort Orchestrator.precedes arrival = Orchestrator.merge_rank cfg results) /\
  (forall results',
     results ≡ₚ results' ->
     Forall2 Orchestrator.same_rank
       (Orchestrator.merge_rank cfg results) (Orchestrator.merge_rank cfg results')).
Proof.
  split; [apply merge_rank_sorted |].
  split; [| split; [apply merge_rank_ids | split; [| apply merge_rank_arrival]]].
  - intros i j a b Hij Ha Hb.
    pose proof (merge_rank_sorted cfg results) as Hs.
    pose proof (merge_rank_NoDup cfg results) as Hnd.
    remember (Orchestrator.merge_rank cfg results) as out eqn:Hout. clear Hout.
    assert (Hsplit : exists l1 l2, out = l1 ++ a :: l2 /\ b ∈ l2).
    { apply list_elem_of_split_length in Ha as (l1 & l2 & -> & Hlen).
      exists l1, l2. split; [reflexivity |].
      rewrite lookup_app_r in Hb by lia.
      destruct (j - length l1)%nat as [| k] eqn:Ek; [lia |].
      simpl in Hb. now apply list_elem_of_lookup_2 in Hb. }
    destruct Hsplit as (l1 & l2 & -> & Hb2).
    apply StronglySorted_app_1_r in Hs.
    apply StronglySorted_cons in Hs. destruct Hs as [Hall _].
    rewrite Forall_forall in Hall. specialize (Hall b Hb2).
    assert (Hne : Orchestrator.r_id a <> Orchestrator.r_id b).
    { rewrite map_app in Hnd. apply NoDup_app in Hnd. destruct Hnd as (_ & _ & Hnd).
      simpl in Hnd. apply NoDup_cons in Hnd. destruct Hnd as [Hnotin _].
      intros Heq. apply Hnotin. rewrite Heq.
      now apply (list_elem_of_fmap_2 Orchestrator.r_id). }
    destruct Hall as [Hlt | [Heq Hle]]; [now left | right; auto].
  - intros arrival Hperm. unfold Orchestrator.merge_rank.
    apply merge_sort_order_independent; [exact Hperm |].
    assert (H : List.map Orchestrator.r_id arrival
                ≡ₚ List.map Orchestrator.r_id
                     (Orchestrator.dedup (List.map (Orchestrator.rank_candidate cfg) results))).
    { now apply Permutation_map. }
    rewrite H. apply dedup_NoDup.
Qed.

Lemma merged_list_is_ordered_and_reproducible_witness :
  String.le "p-1" "p-2" /\
  merge_sort Orchestrator.precedes
    (rev (Orchestrator.dedup
            (List.map (Orchestrator.rank_candidate Orchestrator.default_config)
               Sample.found)))
  = Orchestrator.merge_rank Orchestrator.default_config Sample.found /\
  Forall2 Orchestrator.same_rank
    (Orchestrator.merge_rank Orchestrator.default_config Sample.found)
    (Orchestrator.merge_rank Orchestrator.default_config (rev Sample.found)).
Proof.
  destruct (merged_list_is_ordered_and_reproducible
              Orchestrator.default_config Sample.found) as (_ & Hord & _ & Hrep & Harr).
  split; [| split].
  - edestruct (Hord 1%nat 2%nat) as [Hlt | (_ & Hle & _)].
    + lia.
    + vm_compute. reflexivity.
    + vm_compute. reflexivity.
    + vm_compute in Hlt. discriminate.
    + exact Hle.
  - apply Hrep. symmetry. apply Permutation_rev.
  - apply Harr. apply Permutation_rev.
Defined.

(* ===================================================================== *)
(** * More of the front end *)
(* ===================================================================== *)

(** ** Blank text *)

Lemma trimStart_nil_iff (s : jsstring) :
  trimStart s = [] <-> Forall whitespace s.
Proof.
  induction s as [| c s IH]; simpl.
  - split; [constructor | reflexivity].
  - destruct (is_whitespace c) eqn:Hc.
    + rewrite IH. split.
      * intros H. now constructor.
      * intros H. now inversion H.
    + split; [discriminate |].
      intros H. inversion H as [| ? ? Hw _]. unfold whitespace in Hw. congruence.
Qed.

Lemma trim_nil_iff (s : jsstring) : trim s = [] <-> Forall whitespace s.
Proof.
  unfold trim, trimEnd. split.
  - intros H.
    assert (Hr : trimStart (rev (trimStart s)) = []).
    { apply (f_equal (@rev _)) in H. now rewrite rev_involutive in H. }
    apply trimStart_nil_iff in Hr. apply Forall_rev in Hr.
    rewrite rev_involutive in Hr.
    destruct (trimStart s) as [| c t] eqn:E; [now apply trimStart_nil_iff |].
    inversion Hr as [| ? ? Hw _]. apply trimStart_head in E.
    unfold whitespace in Hw. congruence.
  - intros H. apply trimStart_nil_iff in H. rewrite H. reflexivity.
Qed.

Lemma truthy_trim_iff (s : jsstring) :
  truthy (trim s) = true <-> Exists (fun c => is_whitespace c = false) s.
Proof.
  split.
  - intros Ht.
    assert (Hcases : Forall whitespace s \/
                     Exists (fun c => is_whitespace c = false) s).
    { clear Ht. induction s as [| c s [IH | IH]].
      - left. constructor.
      - destruct (is_whitespace c) eqn:Hc.
        + left. now constructor.
        + right. now constructor.
      - right. now constructor 2. }
    destruct Hcases as [Hall | Hex]; [| exact Hex].
    apply trim_nil_iff in Hall. rewrite Hall in Ht. discriminate.
  - intros Hex. destruct (trim s) eqn:E; [| reflexivity].
    apply trim_nil_iff in E. rewrite List.Forall_forall in E.
    apply List.Exists_exists in Hex. destruct Hex as (c & Hin & Hc).
    specialize (E c Hin). unfold whitespace in E. congruence.
Qed.

(** X1. The search form hands a query to [onSearch] exactly when the submit
    button is enabled, and that is exactly when no search is loading and the
    text has a character that is not whitespace. *)
Theorem submit_searches_iff_button_enabled
    (p : SearchInput.props) (st : SearchInput.state) :
  (SearchInput.searches (SearchInput.handleSubmit p st) <> [] <->
   SearchInput.button_disabled p st = false) /\
  (SearchInput.button_disabled p st = false <->
   SearchInput.loading p = false /\
   Exists (fun c => is_whitespace c = false) (SearchInput.query st)).
Proof.
  unfold SearchInput.handleSubmit, SearchInput.searches, SearchInput.button_disabled.
  rewrite <- truthy_trim_iff.
  destruct (SearchInput.loading p), (truthy (trim (SearchInput.query st)));
    simpl; repeat split; try discriminate; try tauto; intros []; discriminate.
Qed.

Lemma submit_searches_iff_button_enabled_witness :
  SearchInput.searches
    (SearchInput.handleSubmit {| SearchInput.loading := false |}
                              {| SearchInput.query := lit " shoes" |}) <> [] /\
  SearchInput.button_disabled {| SearchInput.loading := false |}
                              {| SearchInput.query := lit " shoes" |} = false.
Proof.
  destruct (submit_searches_iff_button_enabled
              {| SearchInput.loading := false |}
              {| SearchInput.query := lit " shoes" |}) as [H1 H2].
  assert (He : SearchInput.button_disabled {| SearchInput.loading := false |}
                 {| SearchInput.query := lit " shoes" |} = false).
  { apply H2. split; [reflexivity |].
    right. left. reflexivity. }
  split; [apply H1; exact He | exact He].
Defined.

(** ** VoiceRecorder: the clock *)

Lemma two_digits (r : Z) :
  0 <= r < 60 ->
  VoiceRecorder.padStart2 (string_of_Z r)
  = [VoiceRecorder.digit (r / 10); VoiceRecorder.digit (r mod 10)].
Proof.
  intros Hr.
  assert (Hn : r = Z.of_nat (Z.to_nat r)) by lia.
  assert (Hlt : (Z.to_nat r < 60)%nat) by lia.
  revert Hn Hlt. generalize (Z.to_nat r) as n. intros n -> Hlt.
  do 60 (destruct n as [| n]; [reflexivity |]).
  lia.
Qed.

(** X2. For a time of [s] seconds, [s] not negative, the recorder shows the
    whole minutes, a colon, and the remaining seconds as exactly two digits;
    minutes are not folded into hours. *)
Theorem formatTime_minutes_colon_two_digits (s : Z) :
  0 <= s ->
  VoiceRecorder.formatTime s
  = string_of_Z (s / 60) ++ lit ":"
    ++ [VoiceRecorder.digit ((s mod 60) / 10); VoiceRecorder.digit ((s mod 60) mod 10)].
Proof.
  intros Hs. unfold VoiceRecorder.formatTime.
  rewrite Z.rem_mod_nonneg by lia.
  rewrite two_digits; [reflexivity |].
  apply Z.mod_pos_bound. lia.
Qed.

Lemma formatTime_minutes_colon_two_digits_witness :
  VoiceRecorder.formatTime 3725 = lit "62:05".
Proof.
  rewrite formatTime_minutes_colon_two_digits; [reflexivity | lia].
Defined.

(** ** VoiceRecorder: the recording *)

Lemma concat_nonempty_chunks (delivered : list Blob) :
  List.concat (List.map blob_data
                 (List.filter (fun d => blob_size d >? 0) delivered))
  = List.concat (List.map blob_data delivered).
Proof.
  induction delivered as [| d ds IH]; simpl; [reflexivity |].
  destruct (blob_size d >? 0) eqn:E; simpl; [now rewrite IH |].
  unfold blob_size in E.
  destruct (blob_data d) as [| b bs] eqn:Hd; [exact IH |].
  simpl length in E. rewrite Z.gtb_ltb in E. apply Z.ltb_ge in E. lia.
Qed.

(** X3. The blob of a recording holds every byte the recorder delivered, in
    order: leaving out the empty chunks loses nothing; its size is the sum
    of the chunk sizes. *)
Theorem recording_keeps_every_byte (delivered : list Blob) :
  blob_data (VoiceRecorder.recording delivered)
  = List.concat (List.map blob_data delivered) /\
  blob_size (VoiceRecorder.recording delivered)
  = fold_right Z.add 0 (List.map blob_size delivered).
Proof.
  assert (Hd : blob_data (VoiceRecorder.recording delivered)
               = List.concat (List.map blob_data delivered)).
  { unfold VoiceRecorder.recording. rewrite chunks_kept. simpl.
    apply concat_nonempty_chunks. }
  split; [exact Hd |].
  unfold blob_size at 1. rewrite Hd. clear Hd.
  induction delivered as [| d ds IH]; simpl; [reflexivity |].
  rewrite length_app, Nat2Z.inj_add, IH. reflexivity.
Qed.

(** ** VoiceRecorder: the component *)

Section Recorder.

Import VoiceRecorder.

Lemma run_app (a b : list input) (st : state) :
  run (a ++ b) st
  = (fst (run b (fst (run a st))), snd (run a st) ++ snd (run b (fst (run a st)))).
Proof.
  revert st. induction a as [| i a IH]; intros st; simpl.
  - now destruct (run b st).
  - destruct (step i st) as [st1 tr1]. rewrite IH.
    destruct (run a st1) as [st2 tr2]. simpl.
    now rewrite app_assoc.
Qed.

Lemma run_ambient (mid : list input) (t : Z) (cs : chunks) :
  forallb ambient mid = true ->
  run mid {| isRecording := true; recordingTime := t; mediaRecorder := true;
             chunksRef := cs; interval := true |}
  = ({| isRecording := true; recordingTime := t + ticks mid; mediaRecorder := true;
        chunksRef := fold_left (fun cs d => ondataavailable d cs) (delivered mid) cs;
        interval := true |}, []).
Proof.
  revert t cs. induction mid as [| i mid IH]; intros t cs Hamb.
  - simpl. unfold ticks. simpl. now rewrite Z.add_0_r.
  - simpl in Hamb. apply andb_prop in Hamb. destruct Hamb as [Hi Hmid].
    destruct i as [g | | d |]; try discriminate; simpl.
    + rewrite (IH _ _ Hmid). unfold ticks. simpl List.filter. simpl length.
      f_equal. f_equal. lia.
    + rewrite (IH _ _ Hmid). reflexivity.
Qed.

Lemma run_data (final : list Blob) (st : state) :
  mediaRecorder st = true ->
  run (List.map DataAvailable final) st
  = ({| isRecording := isRecording st; recordingTime := recordingTime st;
        mediaRecorder := true;
        chunksRef := fold_left (fun cs d => ondataavailable d cs) final (chunksRef st);
        interval := interval st |}, []).
Proof.
  revert st. induction final as [| d ds IH]; intros [r t m cs iv] Hm;
    simpl in Hm; subst m; simpl; [reflexivity |].
  rewrite IH; reflexivity.
Qed.

End Recorder.

(** X4. One recording, from the idle component: start with the microphone
    granted, any mix of clock ticks and data while recording, a second click,
    the recorder's last data and its stop event. While recording the clock
    shows the number of ticks; afterwards the component is idle again with
    the clock at zero, and [onRecordingComplete] was called exactly once,
    with all the delivered data as one blob. *)
Theorem one_recording_completes_once
    (mid : list VoiceRecorder.input) (granted : bool) (final : list Blob) :
  forallb VoiceRecorder.ambient mid = true ->
  VoiceRecorder.shown_time
    (fst (VoiceRecorder.run (VoiceRecorder.Click true :: mid) VoiceRecorder.idle))
  = Some (VoiceRecorder.formatTime (VoiceRecorder.ticks mid)) /\
  VoiceRecorder.completed
    (snd (VoiceRecorder.run (VoiceRecorder.Click true :: mid) VoiceRecorder.idle)) = [] /\
  let after :=
    VoiceRecorder.run
      (VoiceRecorder.Click true :: mid
       ++ VoiceRecorder.Click granted
          :: List.map VoiceRecorder.DataAvailable final ++ [VoiceRecorder.Stopped])
      VoiceRecorder.idle in
  VoiceRecorder.isRecording (fst after) = false /\
  VoiceRecorder.recordingTime (fst after) = 0 /\
  VoiceRecorder.interval (fst after) = false /\
  VoiceRecorder.shown_time (fst after) = None /\
  VoiceRecorder.completed (snd after)
  = [VoiceRecorder.recording (VoiceRecorder.delivered mid ++ final)].
Proof.
  intros Hamb.
  assert (Hstart : forall rest,
            VoiceRecorder.run (VoiceRecorder.Click true :: rest) VoiceRecorder.idle
            = (fst (VoiceRecorder.run rest
                      {| VoiceRecorder.isRecording := true;
                         VoiceRecorder.recordingTime := 0;
                         VoiceRecorder.mediaRecorder := true;
                         VoiceRecorder.chunksRef := [];
                         VoiceRecorder.interval := true |}),
               [VoiceRecorder.GetUserMedia; VoiceRecorder.RecorderStart;
                VoiceRecorder.SetInterval]
               ++ snd (VoiceRecorder.run rest
                         {| VoiceRecorder.isRecording := true;
                            VoiceRecorder.recordingTime := 0;
                            VoiceRecorder.mediaRecorder := true;
                            VoiceRecorder.chunksRef := [];
                            VoiceRecorder.interval := true |}))).
  { intros rest. simpl. now destruct (VoiceRecorder.run rest _). }
  split; [| split].
  - rewrite Hstart, (run_ambient _ _ _ Hamb). reflexivity.
  - rewrite Hstart, (run_ambient _ _ _ Hamb). reflexivity.
  - cbv zeta. rewrite Hstart, run_app, (run_ambient _ _ _ Hamb).
    cbn [fst snd]. cbn [VoiceRecorder.run VoiceRecorder.step
                         VoiceRecorder.isRecording VoiceRecorder.stopRecording
                         VoiceRecorder.mediaRecorder andb].
    rewrite run_app, run_data by reflexivity.
    cbn. unfold VoiceRecorder.recording. rewrite fold_left_app.
    repeat split.
Qed.

Lemma one_recording_completes_once_witness :
  VoiceRecorder.shown_time
    (fst (VoiceRecorder.run
            [VoiceRecorder.Click true; VoiceRecorder.Tick; VoiceRecorder.Tick]
            VoiceRecorder.idle))
  = Some (lit "0:02").
Proof.
  apply (one_recording_completes_once
           [VoiceRecorder.Tick; VoiceRecorder.Tick] true []).
  reflexivity.
Defined.

(** X5. As long as the microphone is refused, nothing the user or the
    browser does starts a recording: the component stays idle, the clock
    never runs, and [onRecordingComplete] is never called. *)
Theorem no_microphone_no_recording (inputs : list VoiceRecorder.input) :
  forallb (fun i => match i with VoiceRecorder.Click true => false | _ => true end)
    inputs = true ->
  fst (VoiceRecorder.run inputs VoiceRecorder.idle) = VoiceRecorder.idle /\
  VoiceRecorder.completed (snd (VoiceRecorder.run inputs VoiceRecorder.idle)) = [].
Proof.
  induction inputs as [| i inputs IH]; intros Hden; simpl; [split; reflexivity |].
  simpl in Hden. apply andb_prop in Hden. destruct Hden as [Hi Hrest].
  destruct (IH Hrest) as [Hst Htr].
  destruct i as [[|] | | d |]; try discriminate; simpl;
    destruct (VoiceRecorder.run inputs VoiceRecorder.idle) as [st tr];
    simpl in *; now split.
Qed.

Lemma no_microphone_no_recording_witness :
  fst (VoiceRecorder.run
         [VoiceRecorder.Click false; VoiceRecorder.Tick; VoiceRecorder.Stopped;
          VoiceRecorder.Click false]
         VoiceRecorder.idle) = VoiceRecorder.idle.
Proof.
  apply (no_microphone_no_recording
           [VoiceRecorder.Click false; VoiceRecorder.Tick; VoiceRecorder.Stopped;
            VoiceRecorder.Click false]).
  reflexivity.
Defined.

(** ** ImageUpload: what a drop does *)

Lemma sort_files_single (maxSize : Z) (f : File) :
  Dropzone.sort_files maxSize [f]
  = if Dropzone.passes maxSize f
    then ([f], [])
    else ([], [{| Dropzone.file := f;
                  Dropzone.errors := Dropzone.rejection_errors maxSize f |}]).
Proof.
  unfold Dropzone.sort_files. simpl.
  destruct (Dropzone.passes maxSize f); reflexivity.
Qed.

Lemma sort_files_all_pass (maxSize : Z) (files : list File) :
  forallb (Dropzone.passes maxSize) files = true ->
  List.filter (Dropzone.passes maxSize) files = files /\
  List.filter (fun f => negb (Dropzone.passes maxSize f)) files = [].
Proof.
  induction files as [| f fs IH]; simpl; [now split |].
  intros H. apply andb_prop in H. destruct H as [Hf Hfs].
  rewrite Hf. simpl. destruct (IH Hfs) as [-> ->]. now split.
Qed.

Lemma sort_files_several (maxSize : Z) (f g : File) (rest : list File) :
  exists r rs, snd (Dropzone.sort_files maxSize (f :: g :: rest)) = r :: rs.
Proof.
  destruct (forallb (Dropzone.passes maxSize) (f :: g :: rest)) eqn:Hall.
  - unfold Dropzone.sort_files.
    destruct (sort_files_all_pass _ _ Hall) as [-> ->]. simpl. eauto.
  - assert (Hex : exists x, In x (f :: g :: rest) /\ Dropzone.passes maxSize x = false).
    { clear - Hall. induction (f :: g :: rest) as [| x l IH]; simpl in Hall;
        [discriminate |].
      destruct (Dropzone.passes maxSize x) eqn:Hx.
      - destruct (IH Hall) as (y & Hy & Hp). exists y. split; [now right | exact Hp].
      - exists x. split; [now left | exact Hx]. }
    destruct Hex as (x & Hin & Hx).
    destruct (sort_files_rejects maxSize _ x Hin Hx) as (r & rs & Hr & _). eauto.
Qed.

Lemma drop_cases
    (p : ImageUpload.props) (files : list File) (st : ImageUpload.state) :
  ImageUpload.preview (fst (ImageUpload.drop p files st)) = ImageUpload.preview st /\
  (ImageUpload.error (fst (ImageUpload.drop p files st)) = None <->
   files = [] \/
   exists f, files = [f] /\ Dropzone.passes (ImageUpload.maxSize p) f = true) /\
  (forall f, files = [f] -> Dropzone.passes (ImageUpload.maxSize p) f = true ->
     snd (ImageUpload.drop p files st)
     = [ImageUpload.ReadAsDataURL f; ImageUpload.OnImageSelect (Some f)]) /\
  (ImageUpload.error (fst (ImageUpload.drop p files st)) <> None \/ files = [] ->
     snd (ImageUpload.drop p files st) = []).
Proof.
  unfold ImageUpload.drop.
  destruct files as [| f [| g rest]].
  - (* no file *)
    simpl. split; [reflexivity |]. split; [| split].
    + split; [now left | reflexivity].
    + intros g Hg. discriminate.
    + reflexivity.
  - (* one file *)
    rewrite sort_files_single.
    destruct (Dropzone.passes (ImageUpload.maxSize p) f) eqn:Hp.
    + simpl. split; [reflexivity |]. split; [| split].
      * split; [intros _; right; eauto | reflexivity].
      * intros g [= <-] _. reflexivity.
      * intros [H | H]; [now destruct H | discriminate].
    + rewrite onDrop_rejection. simpl. split; [reflexivity |]. split; [| split].
      * split; [discriminate |].
        intros [H | (g & [= <-] & Hg)]; [discriminate | congruence].
      * intros g [= <-] Hg. congruence.
      * reflexivity.
  - (* several files: at least one is rejected *)
    destruct (sort_files_several (ImageUpload.maxSize p) f g rest) as (r & rs & Hr).
    destruct (Dropzone.sort_files (ImageUpload.maxSize p) (f :: g :: rest))
      as [acc rej].
    simpl in Hr. subst rej. rewrite onDrop_rejection. simpl.
    split; [reflexivity |]. split; [| split].
    + split; [discriminate |].
      intros [H | (x & H & _)]; discriminate.
    + intros x H. discriminate.
    + reflexivity.
Qed.

(** X6. Files dropped on the zone or chosen in the file dialog are handled
    in one of two ways, according to the files that file-selector hands
    over (all of them, but for a dropped .DS_Store or Thumbs.db). Without
    an error, exactly when there is no such file or a single one that
    passes the checks: that file is then read and handed to
    [onImageSelect]. Or with an error message and nothing else done. The
    handler itself leaves the preview as it is; the preview is set when the
    read completes, to the data URL that was read, and the error stays
    cleared. *)
Theorem drop_selects_one_file_or_reports
    (types : jsstring -> option jsstring)
    (p : ImageUpload.props) (from : Dropzone.origin) (files : list File)
    (st : ImageUpload.state) :
  ImageUpload.preview (fst (ImageUpload.step types p (ImageUpload.Files from files) st))
  = ImageUpload.preview st /\
  (ImageUpload.error (fst (ImageUpload.step types p (ImageUpload.Files from files) st)) = None <->
   Dropzone.fromEvent types from files = [] \/
   exists f, Dropzone.fromEvent types from files = [f] /\
             Dropzone.passes (ImageUpload.maxSize p) f = true) /\
  (forall f, Dropzone.fromEvent types from files = [f] ->
     Dropzone.passes (ImageUpload.maxSize p) f = true ->
     snd (ImageUpload.step types p (ImageUpload.Files from files) st)
     = [ImageUpload.ReadAsDataURL f; ImageUpload.OnImageSelect (Some f)] /\
     forall result,
       ImageUpload.step types p (ImageUpload.Load result)
         (fst (ImageUpload.step types p (ImageUpload.Files from files) st))
       = ({| ImageUpload.preview := Some result; ImageUpload.error := None |}, [])) /\
  (ImageUpload.error (fst (ImageUpload.step types p (ImageUpload.Files from files) st)) <> None \/
   Dropzone.fromEvent types from files = [] ->
   snd (ImageUpload.step types p (ImageUpload.Files from files) st) = []).
Proof.
  cbn [ImageUpload.step].
  destruct (drop_cases p (Dropzone.fromEvent types from files) st) as (Hpv & Herr & Hsel & Hno).
  split; [exact Hpv |]. split; [exact Herr |]. split; [| exact Hno].
  intros f Hf Hp. split; [now apply Hsel |].
  intros result. unfold ImageUpload.reader_onload, ImageUpload.setPreview.
  assert (He : ImageUpload.error (fst (ImageUpload.drop p (Dropzone.fromEvent types from files) st))
               = None) by (apply Herr; right; eauto).
  now rewrite He.
Qed.

Lemma drop_selects_one_file_or_reports_witness :
  snd (ImageUpload.step Sample.mime_types {| ImageUpload.maxSize_prop := None |}
         (ImageUpload.Files Dropzone.DragAndDrop [Sample.thumbs_db; Sample.photo_png])
         Sample.empty_upload)
  = [ImageUpload.ReadAsDataURL Sample.photo_png;
     ImageUpload.OnImageSelect (Some Sample.photo_png)] /\
  snd (ImageUpload.step Sample.mime_types {| ImageUpload.maxSize_prop := None |}
         (ImageUpload.Files Dropzone.FileDialog [Sample.thumbs_db])
         Sample.empty_upload) = [] /\
  ImageUpload.selected
    (snd (ImageUpload.step Sample.mime_types {| ImageUpload.maxSize_prop := None |}
            (ImageUpload.Files Dropzone.FileDialog [Sample.scan_bmp])
            Sample.empty_upload))
  = [Some (Dropzone.withMimeType Sample.mime_types Sample.scan_bmp)].
Proof.
  split; [| split].
  - apply (drop_selects_one_file_or_reports Sample.mime_types
             {| ImageUpload.maxSize_prop := None |}
             Dropzone.DragAndDrop [Sample.thumbs_db; Sample.photo_png]
             Sample.empty_upload); reflexivity.
  - apply (drop_selects_one_file_or_reports Sample.mime_types
             {| ImageUpload.maxSize_prop := None |}
             Dropzone.FileDialog [Sample.thumbs_db] Sample.empty_upload).
    left. vm_compute. discriminate.
  - destruct (drop_selects_one_file_or_reports Sample.mime_types
                {| ImageUpload.maxSize_prop := None |}
                Dropzone.FileDialog [Sample.scan_bmp] Sample.empty_upload)
      as (_ & _ & H & _).
    destruct (H (Dropzone.withMimeType Sample.mime_types Sample.scan_bmp)
                eq_refl eq_refl) as [-> _].
    reflexivity.
Defined.

(** X7. Two or more files dropped together, each of them an acceptable
    image within the size limit, are all refused: no file is selected, and
    the message shown is the one for a wrong file type. *)
Theorem several_images_dropped_together_are_refused
    (p : ImageUpload.props) (files : list File) (st : ImageUpload.state) :
  forallb (Dropzone.passes (ImageUpload.maxSize p)) files = true ->
  (2 <= length files)%nat ->
  ImageUpload.drop p files st
  = ({| ImageUpload.preview := ImageUpload.preview st;
        ImageUpload.error := Some ImageUpload.invalid_type_message |}, []).
Proof.
  intros Hall Hlen. unfold ImageUpload.drop, Dropzone.sort_files.
  destruct (sort_files_all_pass _ _ Hall) as [-> ->].
  destruct files as [| f [| g rest]]; simpl in Hlen; try lia.
  simpl in Hall. apply andb_prop in Hall. destruct Hall as [Hf _].
  unfold Dropzone.passes, Dropzone.fileMatchSize in Hf.
  apply andb_prop in Hf. destruct Hf as [_ Hsize].
  apply negb_true_iff in Hsize.
  unfold ImageUpload.onDrop. simpl. rewrite Hsize. reflexivity.
Qed.

Lemma several_images_dropped_together_are_refused_witness :
  ImageUpload.drop {| ImageUpload.maxSize_prop := None |}
    [Sample.photo_png; Sample.photo_png] Sample.upload_state
  = ({| ImageUpload.preview := ImageUpload.preview Sample.upload_state;
        ImageUpload.error := Some (lit "Invalid file type. Please upload an image.") |},
     []).
Proof.
  apply (several_images_dropped_together_are_refused
           {| ImageUpload.maxSize_prop := None |}
           [Sample.photo_png; Sample.photo_png] Sample.upload_state).
  - reflexivity.
  - simpl. lia.
Defined.

(** ** The client: what every request carries *)

Section Requests.

Import Api.

Lemma API_BASE_URL_truthy (env : option jsstring) : truthy (API_BASE_URL env) = true.
Proof.
  unfold API_BASE_URL. destruct env as [u |]; [| reflexivity].
  destruct (truthy u) eqn:E; [exact E | reflexivity].
Qed.

Lemma request_interceptor_other_header (ls : Storage) (c : config) (h : string) :
  h <> "X-Session-ID" ->
  headers (request_interceptor ls c) !! h = headers c !! h.
Proof.
  intros Hh.
  destruct (request_interceptor_cases ls c) as [(sid & _ & _ & ->) | [_ ->]];
    [now apply lookup_insert_ne | reflexivity].
Qed.

Lemma request_interceptor_session (ls : Storage) (c : config) :
  session_header c = None ->
  session_header (request_interceptor ls c)
  = match ls !! "session_id" with
    | Some sid => if truthy sid then Some sid else None
    | None => None
    end.
Proof.
  intros Hc. unfold session_header in *. unfold request_interceptor.
  destruct (ls !! "session_id") as [sid |]; [| exact Hc].
  destruct (truthy sid); [| exact Hc].
  simpl. apply lookup_insert_eq.
Qed.

(** The request of a call, field by field. *)
Lemma call_request (w : world) m u d (o : overrides) :
  o_headers o !! "X-Session-ID" = None ->
  exists c,
    sent (fst (call w m u d o)) = [c] /\
    method c = m /\ url c = u /\ data c = d /\ params c = o_params o /\
    baseURL c = API_BASE_URL (VITE_API_URL w) /\
    content_type c = (o_headers o ∪ default_headers) !! "Content-Type" /\
    session_header c
    = match localStorage w !! "session_id" with
      | Some sid => if truthy sid then Some sid else None
      | None => None
      end.
Proof.
  intros Ho. eexists. split; [apply sent_call |].
  destruct (request_interceptor_fields (localStorage w)
              (mergeConfig (VITE_API_URL w) m u d o))
    as (-> & -> & -> & -> & -> & _).
  repeat split.
  - unfold content_type. rewrite request_interceptor_other_header by discriminate.
    reflexivity.
  - apply request_interceptor_session. unfold session_header. simpl.
    apply lookup_union_None. split; [exact Ho | reflexivity].
Qed.

End Requests.

(** X8. Every function of the API module sends exactly one request: the
    four query functions as POST and the five others as GET without a body;
    the three that upload a form override the content type with
    multipart/form-data while all others keep the instance's
    application/json; and the base URL is never empty. *)
Theorem every_call_method_and_content_type (w : Api.world) (call : Api.api_call) :
  exists c,
    Api.sent (fst (Api.perform w call)) = [c] /\
    Api.method c = (if Api.posts call then "post" else "get") /\
    Api.content_type c
    = Some (if Api.uploads_form call then lit "multipart/form-data"
            else lit "application/json") /\
    (Api.posts call = false -> Api.data c = Api.NoBody) /\
    truthy (Api.baseURL c) = true.
Proof.
  destruct call; cbn [Api.perform Api.posts Api.uploads_form];
    unfold Api.queryText, Api.queryImage, Api.queryVoice, Api.queryMultimodal,
      Api.getProduct, Api.getProductReviews, Api.getProductPrices,
      Api.getRecommendations, Api.healthCheck; cbv zeta;
    match goal with
    | |- context [Api.call ?w ?m ?u ?d ?o] =>
        destruct (call_request w m u d o eq_refl)
          as (c & Hs & Hm & _ & Hd & _ & Hb & Hc & _)
    end;
    exists c; (split; [exact Hs |]); rewrite Hm, Hb, Hc;
    (split; [reflexivity |]); (split; [reflexivity |]);
    (split; [try discriminate; intros _; exact Hd | apply API_BASE_URL_truthy]).
Qed.

Lemma every_call_method_and_content_type_witness :
  exists c,
    Api.sent (fst (Api.perform Sample.world Api.HealthCheck)) = [c] /\
    Api.data c = Api.NoBody.
Proof.
  destruct (every_call_method_and_content_type Sample.world Api.HealthCheck)
    as (c & Hs & _ & _ & Hd & _).
  exists c. split; [exact Hs | apply Hd; reflexivity].
Defined.

(** X9. Whatever function of the API module is called, its request carries
    the session id stored in localStorage as X-Session-ID when that id is
    not empty, and no such header otherwise; no call site sets or removes
    the header itself. *)
Theorem every_call_carries_the_stored_session (w : Api.world) (call : Api.api_call) :
  exists c,
    Api.sent (fst (Api.perform w call)) = [c] /\
    Api.session_header c
    = match Api.localStorage w !! "session_id" with
      | Some sid => if truthy sid then Some sid else None
      | None => None
      end.
Proof.
  destruct call; cbn [Api.perform];
    unfold Api.queryText, Api.queryImage, Api.queryVoice, Api.queryMultimodal,
      Api.getProduct, Api.getProductReviews, Api.getProductPrices,
      Api.getRecommendations, Api.healthCheck; cbv zeta;
    match goal with
    | |- context [Api.call ?w ?m ?u ?d ?o] =>
        destruct (call_request w m u d o eq_refl)
          as (c & Hs & _ & _ & _ & _ & _ & _ & Hh)
    end;
    exists c; split; assumption.
Qed.

Lemma every_call_carries_the_stored_session_witness :
  exists c,
    Api.sent (fst (Api.perform Sample.session_world
                     (Api.GetProduct (lit "p-17")))) = [c] /\
    Api.session_header c = Some (lit "s-42").
Proof.
  destruct (every_call_carries_the_stored_session Sample.session_world
              (Api.GetProduct (lit "p-17"))) as (c & Hs & Hh).
  exists c. split; [exact Hs | exact Hh].
Defined.

(** ** Numbers in forms *)

Lemma lit_inj (a b : string) : lit a = lit b -> a = b.
Proof.
  unfold lit. intros H.
  assert (Hl : list_ascii_of_string a = list_ascii_of_string b).
  { revert H. generalize (list_ascii_of_string a) (list_ascii_of_string b).
    intros l1. induction l1 as [| x l1 IH]; intros [| y l2] H; simpl in H;
      try discriminate; [reflexivity |].
    injection H as Hxy Hrest. f_equal; [| now apply IH].
    rewrite <- (ascii_N_embedding x), <- (ascii_N_embedding y). now rewrite Hxy. }
  rewrite <- (string_of_list_ascii_of_string a), <- (string_of_list_ascii_of_string b).
  now rewrite Hl.
Qed.

Lemma to_int_proper (n : Z) :
  Z.to_int n <> Decimal.Pos Decimal.Nil /\ Z.to_int n <> Decimal.Neg Decimal.Nil.
Proof.
  destruct n as [| p | p]; simpl; split; try discriminate;
    intros [= H]; now apply DecimalPos.Unsigned.to_uint_nonnil in H.
Qed.

(** The decimal text of a number determines the number. *)
Lemma string_of_Z_inj (a b : Z) : string_of_Z a = string_of_Z b -> a = b.
Proof.
  unfold string_of_Z. intros H. apply lit_inj in H.
  apply (f_equal NilZero.int_of_string) in H.
  destruct (to_int_proper a) as [Ha1 Ha2]. destruct (to_int_proper b) as [Hb1 Hb2].
  rewrite !NilZero.isi in H by assumption.
  injection H as H. apply (f_equal Z.of_int) in H.
  now rewrite !DecimalZ.of_to in H.
Qed.

(** X10. [queryMultimodal] checks nothing: whatever it is given, even no
    text, no image and no audio, it posts one form to /api/query/multimodal.
    The form always has a max_results field, and that field is never 0: a
    missing or zero [maxResults] is sent as 10. An empty text is left out
    like a missing one. *)
Theorem queryMultimodal_always_posts (w : Api.world) (d : Api.multimodal) :
  exists c fd n,
    Api.sent (fst (Api.queryMultimodal w d)) = [c] /\
    Api.url c = lit "/api/query/multimodal" /\
    Api.data c = Api.FormBody fd /\
    Api.form_texts "max_results" fd = [string_of_Z n] /\
    string_of_Z n <> lit "0" /\
    (Api.mm_maxResults d = Some n \/
     n = 10 /\ (Api.mm_maxResults d = None \/ Api.mm_maxResults d = Some 0)) /\
    Api.form_texts "query_text" fd
    = match Api.mm_queryText d with
      | Some (c :: q) => [c :: q]
      | _ => []
      end /\
    (Api.mm_queryText d = None -> Api.mm_imageFile d = None ->
     Api.mm_audioBlob d = None ->
     fd = [("max_results", FText (string_of_Z n))]).
Proof.
  unfold Api.queryMultimodal. cbv zeta.
  match goal with
  | |- context [Api.call ?w ?m ?u ?d ?o] =>
      destruct (call_request w m u d o eq_refl)
        as (c & Hs & _ & Hu & Hd & _)
  end.
  exists c. eexists.
  exists (match Api.mm_maxResults d with
          | Some n => if n =? 0 then 10 else n
          | None => 10
          end).
  split; [exact Hs |]. split; [exact Hu |]. split; [exact Hd |].
  destruct d as [[[| a q] |] [f |] [b |] [n |]]; simpl;
    try destruct (Z.eqb_spec n 0) as [-> | Hn];
    (split; [reflexivity |]);
    (split; [intros H; change (lit "0") with (string_of_Z 0) in H;
             apply string_of_Z_inj in H; try discriminate; congruence |]);
    (split; [auto |]);
    (split; [reflexivity |]);
    try (intros; discriminate); try reflexivity; intros _ _ _; reflexivity.
Qed.

Lemma queryMultimodal_always_posts_witness :
  exists c,
    Api.sent (fst (Api.queryMultimodal Sample.world
                     {| Api.mm_queryText := None; Api.mm_imageFile := None;
                        Api.mm_audioBlob := None; Api.mm_maxResults := None |})) = [c] /\
    Api.data c = Api.FormBody [("max_results", FText (lit "10"))].
Proof.
  destruct (queryMultimodal_always_posts Sample.world
              {| Api.mm_queryText := None; Api.mm_imageFile := None;
                 Api.mm_audioBlob := None; Api.mm_maxResults := None |})
    as (c & fd & n & Hs & _ & Hd & _ & _ & Hn & _ & Hfd).
  exists c. split; [exact Hs |].
  rewrite Hd, (Hfd eq_refl eq_refl eq_refl).
  destruct Hn as [Hn | [-> _]]; [discriminate | reflexivity].
Defined.

(** ** The home page: what a search leaves behind *)

Section Searches.

Import HomePage.

Lemma adapter_30s (c : Api.config) (srv : Api.reply) :
  Api.timeout c = 30000 ->
  match Api.good_answer c srv with
  | Some r => Api.adapter c srv = Some (Api.Resolved r)
  | None => exists e, Api.adapter c srv = Some (Api.Rejected e)
  end.
Proof.
  intros Ht. unfold Api.good_answer, Api.adapter, Api.in_time, Api.settle_reply.
  rewrite Ht. simpl.
  destruct srv as [l r | l |]; simpl; [| destruct (l <=? 30000); eauto | eauto].
  destruct (l <=? 30000); simpl; [| eauto].
  destruct (Api.validateStatus (Api.status r)); eauto.
Qed.

Lemma omap_Client_events (evs : list Api.event) :
  requests (List.map Client evs) = Api.sent evs /\
  loadings (List.map Client evs) = [] /\
  navigations (List.map Client evs) = [] /\
  toasts (List.map Client evs) = [].
Proof.
  induction evs as [| e evs (IH1 & IH2 & IH3 & IH4)]; [now repeat split |].
  unfold requests, loadings, navigations, toasts, Api.sent in *.
  destruct e as [c | label]; cbn [List.map omap list_omap];
    rewrite ?IH1, ?IH2, ?IH3, ?IH4; repeat split; reflexivity.
Qed.

(** What any of the three handlers leaves behind once it has made its call. *)
Lemma awaiting_call (w : Api.world) m u d (o : Api.overrides)
    (query : json -> option json) (msg : string) :
  Api.o_timeout o = None ->
  exists c,
    Api.sent (fst (Api.call w m u d o)) = [c] /\
    requests (awaiting (Api.call w m u d o) query msg) = [c] /\
    loadings (awaiting (Api.call w m u d o) query msg) = [true; false] /\
    match Api.good_answer c (Api.server w c) with
    | Some r =>
        match query (Api.resp_data r) with
        | Some q =>
            navigations (awaiting (Api.call w m u d o) query msg)
            = [("/search", Api.resp_data r, q)] /\
            toasts (awaiting (Api.call w m u d o) query msg) = []
        | None =>
            navigations (awaiting (Api.call w m u d o) query msg) = [] /\
            toasts (awaiting (Api.call w m u d o) query msg) = [msg]
        end
    | None =>
        navigations (awaiting (Api.call w m u d o) query msg) = [] /\
        toasts (awaiting (Api.call w m u d o) query msg) = [msg]
    end.
Proof.
  intros Ho. eexists. split; [apply sent_call |].
  pose proof (timeout_call o (Api.VITE_API_URL w) m u d (Api.localStorage w) Ho) as Ht.
  pose proof (sent_call w m u d o) as Hsent.
  pose proof (result_call w m u d o) as Hres.
  set (c := Api.request_interceptor _ _) in *.
  pose proof (adapter_30s c (Api.server w c) Ht) as Had.
  destruct (omap_Client_events (fst (Api.call w m u d o))) as (E1 & E2 & E3 & E4).
  unfold awaiting.
  unfold requests, loadings, navigations, toasts in *.
  cbn [omap list_omap]. rewrite !omap_app, E1, E2, E3, E4, Hsent, Hres.
  destruct (Api.good_answer c (Api.server w c)) as [r |].
  - rewrite Had. simpl. destruct (query (Api.resp_data r)); simpl; repeat split.
  - destruct Had as [e ->]. simpl. repeat split.
Qed.

Lemma submit_text (w : Api.world) (loading : bool) (q : jsstring) :
  truthy (trim q) = true ->
  submit w loading (Text q)
  = PreventDefault :: (if loading then [] else handleTextSearch w (trim q)).
Proof.
  intros Hq. unfold submit, SearchInput.handleSubmit.
  cbn [SearchInput.loading SearchInput.query]. rewrite Hq.
  destruct loading; cbn [negb andb flat_map app]; [reflexivity |].
  now rewrite app_nil_r.
Qed.

End Searches.

(** What a search from any tab leaves behind. *)
Lemma search_trace (w : Api.world) (i : HomePage.input) :
  HomePage.modality_present i = true ->
  exists c,
    HomePage.requests (HomePage.submit w false i) = [c] /\
    HomePage.loadings (HomePage.submit w false i) = [true; false] /\
    match Api.good_answer c (Api.server w c) with
    | Some r =>
        match i, Api.resp_data r with
        | HomePage.Voice _, JNull =>
            HomePage.navigations (HomePage.submit w false i) = [] /\
            HomePage.toasts (HomePage.submit w false i) = [HomePage.failure_message i]
        | _, _ =>
            HomePage.navigations (HomePage.submit w false i)
            = [("/search", Api.resp_data r, HomePage.query_label i (Api.resp_data r))] /\
            HomePage.toasts (HomePage.submit w false i) = []
        end
    | None =>
        HomePage.navigations (HomePage.submit w false i) = [] /\
        HomePage.toasts (HomePage.submit w false i) = [HomePage.failure_message i]
    end.
Proof.
  intros Hpresent. destruct i as [q | [f |] | delivered]; simpl in Hpresent;
    try discriminate.
  - (* text *)
    rewrite (submit_text w false q Hpresent).
    unfold HomePage.handleTextSearch, Api.queryText.
    match goal with
    | |- context [HomePage.awaiting (Api.call ?w ?m ?u ?d ?o) ?query ?msg] =>
        destruct (awaiting_call w m u d o query msg eq_refl)
          as (c & _ & Hr & Hl & Hn)
    end.
    exists c. split; [exact Hr |]. split; [exact Hl | exact Hn].
  - (* image *)
    unfold HomePage.submit, HomePage.handleImageSearch, Api.queryImage. cbv zeta.
    match goal with
    | |- context [HomePage.awaiting (Api.call ?w ?m ?u ?d ?o) ?query ?msg] =>
        destruct (awaiting_call w m u d o query msg eq_refl)
          as (c & _ & Hr & Hl & Hn)
    end.
    exists c. split; [exact Hr |]. split; [exact Hl | exact Hn].
  - (* voice *)
    unfold HomePage.submit, HomePage.handleVoiceSearch, Api.queryVoice. cbv zeta.
    match goal with
    | |- context [HomePage.awaiting (Api.call ?w ?m ?u ?d ?o) ?query ?msg] =>
        destruct (awaiting_call w m u d o query msg eq_refl)
          as (c & _ & Hr & Hl & Hn)
    end.
    exists c. split; [exact Hr |]. split; [exact Hl |].
    destruct (Api.good_answer c (Api.server w c)) as [r |]; [| exact Hn].
    destruct (Api.resp_data r); exact Hn.
Qed.


(** X11. A search from any of the three tabs with its modality present
    sends exactly one request and switches [loading] on and then off again,
    however the request ends: the 30 s timeout lets no handler hang. When
    the server answers in time with a 2xx status the page navigates to
    /search with the response and the tab's query label and shows no toast,
    unless the search is a voice search and the body of the answer is null:
    reading the message of that body throws. In that case, as after every
    answer that is late or not 2xx, the page stays where it is and shows
    the tab's failure toast once. *)
Theorem every_search_resets_loading (w : Api.world) (i : HomePage.input) :
  HomePage.modality_present i = true ->
  exists c,
    HomePage.requests (HomePage.submit w false i) = [c] /\
    HomePage.loadings (HomePage.submit w false i) = [true; false] /\
    match Api.good_answer c (Api.server w c) with
    | Some r =>
        match i, Api.resp_data r with
        | HomePage.Voice _, JNull =>
            HomePage.navigations (HomePage.submit w false i) = [] /\
            HomePage.toasts (HomePage.submit w false i) = [HomePage.failure_message i]
        | _, _ =>
            HomePage.navigations (HomePage.submit w false i)
            = [("/search", Api.resp_data r, HomePage.query_label i (Api.resp_data r))] /\
            HomePage.toasts (HomePage.submit w false i) = []
        end
    | None =>
        HomePage.navigations (HomePage.submit w false i) = [] /\
        HomePage.toasts (HomePage.submit w false i) = [HomePage.failure_message i]
    end.
Proof. apply search_trace. Qed.

Lemma every_search_resets_loading_witness :
  HomePage.loadings
    (HomePage.submit Sample.failing_world false (HomePage.Text (lit "boots")))
  = [true; false] /\
  HomePage.toasts
    (HomePage.submit Sample.failing_world false (HomePage.Text (lit "boots")))
  = ["Search failed. Please try again."] /\
  HomePage.toasts
    (HomePage.submit Sample.null_world false (HomePage.Voice [file_blob Sample.photo_png]))
  = ["Voice search failed. Please try again."].
Proof.
  destruct (every_search_resets_loading Sample.failing_world
              (HomePage.Text (lit "boots")) eq_refl) as (c & _ & Hl & Hn).
  destruct (every_search_resets_loading Sample.null_world
              (HomePage.Voice [file_blob Sample.photo_png]) eq_refl)
    as (c' & Hr' & _ & Hn').
  split; [exact Hl |]. split.
  - unfold Api.good_answer in Hn. simpl in Hn. rewrite andb_false_r in Hn.
    exact (proj2 Hn).
  - assert (Hc : Api.timeout c' = 30000).
    { vm_compute in Hr'. injection Hr' as <-. reflexivity. }
    unfold Api.good_answer, Api.in_time in Hn'. simpl in Hn'. rewrite Hc in Hn'.
    exact (proj2 Hn').
Defined.

(** ** The home page: the image tab *)

Lemma drop_effects (p : ImageUpload.props) (files : list File) (st : ImageUpload.state) :
  snd (ImageUpload.drop p files st)
  = match files with
    | [f] => if Dropzone.passes (ImageUpload.maxSize p) f
             then [ImageUpload.ReadAsDataURL f; ImageUpload.OnImageSelect (Some f)]
             else []
    | _ => []
    end.
Proof.
  unfold ImageUpload.drop. destruct files as [| f [| g rest]].
  - reflexivity.
  - rewrite sort_files_single.
    destruct (Dropzone.passes (ImageUpload.maxSize p) f);
      [reflexivity | now rewrite onDrop_rejection].
  - destruct (sort_files_several (ImageUpload.maxSize p) f g rest) as (r & rs & Hr).
    destruct (Dropzone.sort_files (ImageUpload.maxSize p) (f :: g :: rest)) as [acc rej].
    simpl in Hr. subst rej. now rewrite onDrop_rejection.
Qed.

Lemma image_search_request (w : Api.world) (f : File) :
  exists c,
    HomePage.requests (HomePage.handleImageSearch w (Some f)) = [c] /\
    Api.method c = "post" /\
    Api.url c = lit "/api/query/image" /\
    Api.data c = Api.FormBody [("image", FFile f); ("max_results", FText (lit "10"))].
Proof.
  unfold HomePage.handleImageSearch, Api.queryImage. cbv zeta.
  match goal with
  | |- context [HomePage.awaiting (Api.call ?w ?m ?u ?d ?o) ?query ?msg] =>
      destruct (awaiting_call w m u d o query msg eq_refl) as (c & Hs & Hr & _);
      destruct (call_request w m u d o eq_refl) as (c' & Hs' & Hm & Hu & Hd & _)
  end.
  rewrite Hs in Hs'. injection Hs' as <-.
  exists c. split; [exact Hr |]. split; [exact Hm |]. split; [exact Hu | exact Hd].
Qed.

(** X12. On the image tab, files dropped or chosen send a request exactly
    when file-selector hands over a single file (a dropped .DS_Store or
    Thumbs.db is left out first) and that file passes the checks of the
    drop zone within the default limit of 5242880 bytes; the request then
    posts that very file as the form field "image", with max_results 10
    and no query text, to /api/query/image. The end of a read sets the
    preview and sends nothing; clearing the image resets preview and error
    and sends nothing. *)
Theorem image_tab_uploads_one_valid_file
    (types : jsstring -> option jsstring)
    (w : Api.world) (from : Dropzone.origin) (files : list File)
    (st : ImageUpload.state) :
  (HomePage.requests (snd (HomePage.upload types w (ImageUpload.Files from files) st)) <> [] <->
   exists f, Dropzone.fromEvent types from files = [f] /\ Dropzone.passes 5242880 f = true) /\
  (forall f, Dropzone.fromEvent types from files = [f] -> Dropzone.passes 5242880 f = true ->
   exists c,
     HomePage.requests (snd (HomePage.upload types w (ImageUpload.Files from files) st)) = [c] /\
     Api.method c = "post" /\
     Api.url c = lit "/api/query/image" /\
     Api.data c = Api.FormBody [("image", FFile f); ("max_results", FText (lit "10"))]) /\
  (forall result,
     HomePage.upload types w (ImageUpload.Load result) st
     = ({| ImageUpload.preview := Some result;
           ImageUpload.error := ImageUpload.error st |}, [])) /\
  HomePage.upload types w ImageUpload.Clear st
  = ({| ImageUpload.preview := None; ImageUpload.error := None |}, []).
Proof.
  assert (Htr : snd (HomePage.upload types w (ImageUpload.Files from files) st)
                = HomePage.image_tab w
                    (snd (ImageUpload.drop HomePage.upload_props
                            (Dropzone.fromEvent types from files) st))).
  { unfold HomePage.upload. cbn [ImageUpload.step].
    now destruct (ImageUpload.drop _ _ _). }
  rewrite Htr, drop_effects.
  change (ImageUpload.maxSize HomePage.upload_props) with 5242880.
  split; [| split; [| split; reflexivity]].
  - destruct (Dropzone.fromEvent types from files) as [| f [| g rest]].
    + split; [intros H; now destruct H | intros (f & H & _); discriminate].
    + destruct (Dropzone.passes 5242880 f) eqn:Hp.
      * split; [intros _; eauto |]. intros _.
        unfold HomePage.image_tab. cbn [flat_map app]. rewrite app_nil_r.
        destruct (image_search_request w f) as (c & -> & _). discriminate.
      * split; [intros H; now destruct H |].
        intros (x & [= <-] & Hx). congruence.
    + split; [intros H; now destruct H | intros (x & H & _); discriminate].
  - intros f -> Hp. rewrite Hp.
    unfold HomePage.image_tab. cbn [flat_map app]. rewrite app_nil_r.
    apply image_search_request.
Qed.

Lemma image_tab_uploads_one_valid_file_witness :
  exists c,
    HomePage.requests
      (snd (HomePage.upload Sample.mime_types Sample.world
              (ImageUpload.Files Dropzone.DragAndDrop [Sample.thumbs_db; Sample.photo_png])
              Sample.empty_upload))
    = [c] /\
    Api.url c = lit "/api/query/image".
Proof.
  destruct (image_tab_uploads_one_valid_file Sample.mime_types Sample.world Dropzone.DragAndDrop
              [Sample.thumbs_db; Sample.photo_png] Sample.empty_upload) as (_ & H & _).
  destruct (H Sample.photo_png eq_refl eq_refl) as (c & Hr & _ & Hu & _).
  exists c. split; [exact Hr | exact Hu].
Defined.

(** ** The results page *)

Lemma call_outcome (w : Api.world) m u d (o : Api.overrides) :
  Api.o_timeout o = None ->
  exists c,
    Api.sent (fst (Api.call w m u d o)) = [c] /\
    match Api.good_answer c (Api.server w c) with
    | Some r => snd (Api.call w m u d o) = Some (inl (Api.resp_data r))
    | None => exists e, snd (Api.call w m u d o) = Some (inr e)
    end.
Proof.
  intros Ho. eexists. split; [apply sent_call |].
  pose proof (timeout_call o (Api.VITE_API_URL w) m u d (Api.localStorage w) Ho) as Ht.
  rewrite result_call.
  set (c := Api.request_interceptor _ _) in *.
  pose proof (adapter_30s c (Api.server w c) Ht) as Had.
  destruct (Api.good_answer c (Api.server w c)) as [r |].
  - now rewrite Had.
  - destruct Had as [e ->]. simpl. eauto.
Qed.

Lemma search_page_requests (evs : list Api.event) (tail : list SearchPage.effect) :
  (forall e, In e tail -> match e with SearchPage.LogError _ => True | _ => False end) ->
  SearchPage.requests (List.map SearchPage.Client evs ++ tail) = Api.sent evs.
Proof.
  intros Htail. unfold SearchPage.requests, Api.sent. rewrite omap_app.
  assert (Ht : omap (fun e => match e with
                               | SearchPage.Client (Api.Sent c) => Some c
                               | _ => None
                               end) tail = []).
  { induction tail as [| e tail IH]; [reflexivity |].
    pose proof (Htail e (or_introl eq_refl)) as He.
    destruct e as [e | e]; [destruct He |].
    cbn [omap list_omap]. apply IH. intros x Hx. apply Htail. now right. }
  rewrite Ht, app_nil_r.
  induction evs as [| [c | label] evs IH]; cbn [List.map omap list_omap];
    [reflexivity | now rewrite IH | exact IH].
Qed.

(** X13. A search from the results page sends one request to
    /api/query/text and always ends with [loading] off and the query set to
    the new text. The results are replaced only when the server answers in
    time with a 2xx status; after a failure the page keeps the results it
    had, now under the new query. While [loading] is on, and for a blank
    text, the refine form does nothing. *)
Theorem search_page_keeps_results_on_failure
    (w : Api.world) (newQuery : jsstring) (st : SearchPage.state) :
  (exists c,
     SearchPage.requests (snd (SearchPage.handleSearch w newQuery st)) = [c] /\
     Api.url c = lit "/api/query/text" /\
     SearchPage.loading (fst (SearchPage.handleSearch w newQuery st)) = false /\
     SearchPage.query (fst (SearchPage.handleSearch w newQuery st)) = JStr newQuery /\
     SearchPage.results (fst (SearchPage.handleSearch w newQuery st))
     = match Api.good_answer c (Api.server w c) with
       | Some r => Api.resp_data r
       | None => SearchPage.results st
       end) /\
  (SearchPage.loading st = true \/ truthy (trim newQuery) = false ->
   SearchPage.refine w newQuery st = (st, [])) /\
  (SearchPage.loading st = false -> truthy (trim newQuery) = true ->
   SearchPage.refine w newQuery st = SearchPage.handleSearch w (trim newQuery) st).
Proof.
  split; [| split].
  - unfold SearchPage.handleSearch, Api.queryText. cbv zeta.
    match goal with
    | |- context [Api.call ?w ?m ?u ?d ?o] =>
        destruct (call_outcome w m u d o eq_refl) as (c & Hs & Hout);
        destruct (call_request w m u d o eq_refl) as (c' & Hs' & _ & Hu & _);
        set (r := Api.call w m u d o) in *
    end.
    rewrite Hs in Hs'. injection Hs' as <-.
    exists c. destruct (Api.good_answer c (Api.server w c)) as [resp |].
    + rewrite Hout. cbn [fst snd SearchPage.loading SearchPage.query SearchPage.results].
      split; [| repeat split; exact Hu].
      rewrite <- (app_nil_r (List.map _ _)), search_page_requests; [exact Hs |].
      intros e [].
    + destruct Hout as [e ->].
      cbn [fst snd SearchPage.loading SearchPage.query SearchPage.results].
      split; [| repeat split; exact Hu].
      rewrite search_page_requests; [exact Hs |].
      intros x [<- | []]. exact I.
  - unfold SearchPage.refine, SearchInput.handleSubmit, SearchInput.searches.
    cbn [SearchInput.loading SearchInput.query].
    intros [-> | ->]; [now rewrite andb_false_r | reflexivity].
  - unfold SearchPage.refine, SearchInput.handleSubmit, SearchInput.searches.
    cbn [SearchInput.loading SearchInput.query].
    intros -> ->. reflexivity.
Qed.

Lemma search_page_keeps_results_on_failure_witness :
  fst (SearchPage.refine Sample.failing_world (lit " sandals ") Sample.boots_page)
  = {| SearchPage.results := SearchPage.results Sample.boots_page;
       SearchPage.query := JStr (lit "sandals");
       SearchPage.loading := false |} /\
  SearchPage.refine Sample.world (lit "  ") Sample.boots_page = (Sample.boots_page, []).
Proof.
  destruct (search_page_keeps_results_on_failure Sample.failing_world (lit " sandals ")
              Sample.boots_page) as (_ & _ & H).
  destruct (search_page_keeps_results_on_failure Sample.world (lit "  ")
              Sample.boots_page) as (_ & Hblank & _).
  split.
  - rewrite (H eq_refl eq_refl). reflexivity.
  - apply Hblank. right. reflexivity.
Defined.

(** X14. The results page opens exactly when a home-page search succeeds,
    and it opens on the response of that search (or on nothing when the
    response is falsy) with [loading] off. After a text search its query is
    the trimmed text; after a voice search it is the message of the
    response, or the empty string when the response has none. A voice
    search that is answered with the body null does not succeed: the page
    is not opened. *)
Theorem results_page_opens_after_success (w : Api.world) (i : HomePage.input) :
  HomePage.modality_present i = true ->
  exists c,
    HomePage.requests (HomePage.submit w false i) = [c] /\
    SearchPage.arrive (HomePage.submit w false i)
    = match Api.good_answer c (Api.server w c) with
      | Some r =>
          match i, Api.resp_data r with
          | HomePage.Voice _, JNull => None
          | _, _ =>
              Some {| SearchPage.results :=
                        if SearchPage.truthy_json (Api.resp_data r)
                        then Api.resp_data r else JNull;
                      SearchPage.query :=
                        match i with
                        | HomePage.Text q => JStr (trim q)
                        | HomePage.Image _ => JStr (lit "Image search")
                        | HomePage.Voice _ =>
                            if SearchPage.truthy_json
                                 (HomePage.field "message" (Api.resp_data r))
                            then HomePage.field "message" (Api.resp_data r)
                            else JStr []
                        end;
                      SearchPage.loading := false |}
          end
      | None => None
      end.
Proof.
  intros Hpresent.
  destruct (search_trace w i Hpresent) as (c & Hr & _ & Hn).
  exists c. split; [exact Hr |].
  unfold SearchPage.arrive.
  destruct (Api.good_answer c (Api.server w c)) as [r |];
    [| destruct Hn as [-> _]; reflexivity].
  destruct i as [q | f | delivered].
  - destruct Hn as [-> _]. unfold SearchPage.initial.
    cbn [HomePage.query_label]. simpl in Hpresent.
    cbn [SearchPage.truthy_json]. now rewrite Hpresent.
  - destruct Hn as [-> _]. reflexivity.
  - destruct (Api.resp_data r); destruct Hn as [-> _]; reflexivity.
Qed.

Lemma results_page_opens_after_success_witness :
  SearchPage.arrive
    (HomePage.submit Sample.failing_world false (HomePage.Text (lit "boots"))) = None /\
  (exists st,
     SearchPage.arrive
       (HomePage.submit Sample.world false (HomePage.Voice [file_blob Sample.photo_png]))
     = Some st /\
     SearchPage.query st = JStr []) /\
  SearchPage.arrive
    (HomePage.submit Sample.null_world false (HomePage.Voice [file_blob Sample.photo_png]))
  = None.
Proof.
  split; [| split].
  - destruct (results_page_opens_after_success Sample.failing_world
                (HomePage.Text (lit "boots")) eq_refl) as (c & _ & ->).
    unfold Api.good_answer. simpl. now rewrite andb_false_r.
  - destruct (results_page_opens_after_success Sample.world
                (HomePage.Voice [file_blob Sample.photo_png]) eq_refl)
      as (c & Hr & ->).
    assert (Hc : Api.timeout c = 30000).
    { vm_compute in Hr. injection Hr as <-. reflexivity. }
    unfold Api.good_answer, Api.in_time. simpl. rewrite Hc. simpl.
    eexists. split; reflexivity.
  - destruct (results_page_opens_after_success Sample.null_world
                (HomePage.Voice [file_blob Sample.photo_png]) eq_refl)
      as (c & Hr & ->).
    assert (Hc : Api.timeout c = 30000).
    { vm_compute in Hr. injection Hr as <-. reflexivity. }
    unfold Api.good_answer, Api.in_time. simpl. rewrite Hc. reflexivity.
Defined.

(** ** ProductCard: stars, badge and price *)

Section CardParts.

Import ProductCard.

Lemma star_filled_iff (i : Z) (rating : Q) :
  Qle_bool (inject_Z i) rating = (i <=? Qfloor rating).
Proof.
  destruct (Z.leb_spec i (Qfloor rating)) as [Hle | Hgt].
  - apply Qle_bool_iff. apply Qle_trans with (inject_Z (Qfloor rating)).
    + now rewrite <- Zle_Qle.
    + apply Qfloor_le.
  - destruct (Qle_bool (inject_Z i) rating) eqn:E; [| reflexivity].
    apply Qle_bool_iff in E. apply Qfloor_resp_le in E. rewrite Qfloor_Z in E. lia.
Qed.

End CardParts.

(** X15. [renderRating] always draws five stars, the filled ones first: as
    many as the whole part of the rating, at least none and at most five. *)
Theorem renderRating_fills_whole_stars (rating : Q) :
  ProductCard.renderRating rating
  = repeat ProductCard.StarIcon (Z.to_nat (Z.max 0 (Z.min 5 (Qfloor rating))))
    ++ repeat ProductCard.StarOutlineIcon
         (5 - Z.to_nat (Z.max 0 (Z.min 5 (Qfloor rating)))) /\
  ProductCard.filled (ProductCard.renderRating rating)
  = Z.max 0 (Z.min 5 (Qfloor rating)).
Proof.
  unfold ProductCard.renderRating. cbn [List.map].
  rewrite !star_filled_iff.
  set (f := Qfloor rating).
  assert (Hf : f <= 0 \/ f = 1 \/ f = 2 \/ f = 3 \/ f = 4 \/ 5 <= f) by lia.
  destruct Hf as [Hf | [Hf | [Hf | [Hf | [Hf | Hf]]]]].
  - replace (Z.max 0 (Z.min 5 f)) with 0 by lia.
    repeat match goal with
           | |- context [?i <=? f] =>
               replace (i <=? f) with false by (symmetry; apply Z.leb_gt; lia)
           end.
    split; reflexivity.
  - rewrite Hf. split; reflexivity.
  - rewrite Hf. split; reflexivity.
  - rewrite Hf. split; reflexivity.
  - rewrite Hf. split; reflexivity.
  - replace (Z.max 0 (Z.min 5 f)) with 5 by lia.
    repeat match goal with
           | |- context [?i <=? f] =>
               replace (i <=? f) with true by (symmetry; apply Z.leb_le; lia)
           end.
    split; reflexivity.
Qed.

Section CardFacts.

Import ProductCard.

Lemma shown_badges_layout (p : props) (card : list node) :
  render p = Some card ->
  shown_badges card
  = match matchScore p with
    | Some s => if Qeq_bool s 0 then [] else [s]
    | None => []
    end.
Proof.
  intros Hr. unfold shown_badges.
  rewrite omap_card with (p := p) by first [exact Hr | reflexivity].
  unfold badge_nodes, reason_nodes.
  destruct (matchScore p) as [s |], (matchReason p) as [r |];
    rewrite ?omap_jsx_and by reflexivity; cbn [truthy_value];
    try destruct (Qeq_bool s 0); try destruct (truthy r);
    repeat match goal with |- context [truthy_value ?v] => destruct (truthy_value v) end;
    repeat match goal with |- context [price_amount ?v] => destruct (price_amount v) end;
    reflexivity.
Qed.

Lemma shown_prices_layout (p : props) (card : list node) :
  render p = Some card ->
  shown_prices card
  = if truthy_value (bestPrice_of (product p))
    then match price_amount (bestPrice_of (product p)) with
         | Some a => [a]
         | None => []
         end
    else [].
Proof.
  intros Hr. unfold shown_prices.
  rewrite omap_card with (p := p) by first [exact Hr | reflexivity].
  unfold badge_nodes, reason_nodes.
  destruct (matchScore p) as [s |], (matchReason p) as [r |];
    rewrite ?omap_jsx_and by reflexivity; cbn [truthy_value];
    try destruct (Qeq_bool s 0); try destruct (truthy r);
    destruct (truthy_value (bestPrice_of (product p))); try reflexivity;
    destruct (price_amount (bestPrice_of (product p))); reflexivity.
Qed.

Lemma price_amount_None (bestPrice : value) :
  price_amount bestPrice = None <->
  is_number (get "amount" bestPrice) = false /\
  (is_missing (get "amount" bestPrice) = false \/ is_number bestPrice = false).
Proof.
  unfold price_amount.
  destruct (get "amount" bestPrice) eqn:Ea; destruct bestPrice eqn:Eb;
    cbn [is_number is_missing]; split; try discriminate; try tauto;
    try (intros [H [H' | H']]; discriminate); auto.
Qed.

(** A value that React refuses as a child is an object or an array, and so
    truthy. *)
Lemma invalid_child_truthy (v : value) :
  valid_child v = false -> truthy_value v = true.
Proof. destruct v; try discriminate; reflexivity. Qed.

(** What a card that renders has passed. *)
Lemma render_Some_valid (p : props) (card : list node) :
  render p = Some card ->
  is_missing (product p) = false /\
  valid_child (get "category" (item_of (product p))) = true /\
  valid_child (get "brand" (get "features" (item_of (product p)))) = true /\
  valid_child (get "name" (item_of (product p))) = true /\
  valid_child (get "description" (item_of (product p))) = true /\
  (truthy_value (bestPrice_of (product p)) = true ->
   price_amount (bestPrice_of (product p)) <> None /\
   valid_child (get "retailer" (bestPrice_of (product p))) = true).
Proof.
  unfold render, bestPrice_of, item_of.
  destruct (is_missing (product p)); [discriminate |]. cbv zeta.
  destruct (image_nodes _ _) as [image |]; cbn [mbind option_bind]; [| discriminate].
  destruct (child _ (Category _)) as [category |] eqn:Hc;
    cbn [mbind option_bind]; [| discriminate].
  destruct (jsx_and_child _ _) as [brand |] eqn:Hb;
    cbn [mbind option_bind]; [| discriminate].
  destruct (title_nodes _ _) as [title |] eqn:Ht;
    cbn [mbind option_bind]; [| discriminate].
  destruct (child _ (Description _)) as [description |] eqn:Hd;
    cbn [mbind option_bind]; [| discriminate].
  destruct (price_nodes _) as [prices |] eqn:Hp; cbn [mbind option_bind]; [| discriminate].
  intros _.
  apply child_Some in Hc, Hd. destruct Hc as [Hc _]. destruct Hd as [Hd _].
  apply jsx_and_child_Some in Hb. destruct Hb as [Hb _].
  apply title_nodes_Some in Ht. destruct Ht as (_ & Ht & _).
  apply price_nodes_Some in Hp.
  split; [reflexivity |]. split; [exact Hc |]. split; [| split; [exact Ht |]].
  - match goal with
    | |- valid_child ?v = true =>
        destruct (valid_child v) eqn:E; [reflexivity |]
    end.
    apply Hb. now apply invalid_child_truthy.
  - split; [exact Hd |]. intros Htruthy.
    destruct Hp as [[Hf _] | (_ & Hv & a & Ha & _)]; [congruence |].
    split; [congruence |].
    match goal with
    | |- valid_child ?v = true =>
        destruct (valid_child v) eqn:E; [reflexivity |]
    end.
    apply Hv. now apply invalid_child_truthy.
Qed.

End CardFacts.

(** X16. The match badge: without a score no badge is shown; a score that
    is not zero shows exactly one badge, the one for that score; a score of
    exactly zero shows no badge but a bare "0" on the card. *)
Theorem match_badge_only_for_nonzero_score
    (p : ProductCard.props) (card : list ProductCard.node) :
  ProductCard.render p = Some card ->
  (ProductCard.matchScore p = None -> ProductCard.shown_badges card = []) /\
  (forall s, ProductCard.matchScore p = Some s -> (s == 0)%Q ->
     ProductCard.shown_badges card = [] /\
     In (ProductCard.Text (lit "0")) card) /\
  (forall s, ProductCard.matchScore p = Some s -> ~ (s == 0)%Q ->
     ProductCard.shown_badges card = [s]).
Proof.
  intros Hr. pose proof (shown_badges_layout p card Hr) as Hb.
  split; [| split].
  - intros Hs. now rewrite Hs in Hb.
  - intros s Hs Hz. rewrite Hs in Hb.
    apply Qeq_bool_iff in Hz. rewrite Hz in Hb. split; [exact Hb |].
    destruct (render_layout p card Hr) as (image & prices & _ & _ & _ & ->).
    rewrite Hs. apply in_or_app. right. apply in_or_app. left.
    unfold ProductCard.badge_nodes, ProductCard.jsx_and.
    cbn [ProductCard.truthy_value]. rewrite Hz. now left.
  - intros s Hs Hnz. rewrite Hs in Hb.
    destruct (Qeq_bool s 0) eqn:E; [apply Qeq_bool_iff in E; contradiction |].
    exact Hb.
Qed.

Lemma match_badge_only_for_nonzero_score_witness :
  exists card,
    ProductCard.render Sample.jacket_card = Some card /\
    ProductCard.shown_badges card = [9 # 10].
Proof.
  destruct (ProductCard.render Sample.jacket_card) as [card |] eqn:E;
    [| vm_compute in E; discriminate].
  exists card. split; [reflexivity |].
  destruct (match_badge_only_for_nonzero_score Sample.jacket_card card E)
    as (_ & _ & H).
  apply (H (9 # 10) eq_refl). discriminate.
Defined.

(** X17. Rendering the card throws when the product is null or undefined;
    when the category, the brand, the name, the description or, under a
    truthy best price, the retailer is an object or an array that holds
    one; and when the best price is truthy, its [amount] is not a number,
    and either that amount is present or the best price is not itself a
    number (for instance a price given as text). A card that renders shows
    at most one price: the amount of the best price, or the best price
    itself when it is a bare number, and none when the best price is
    missing or falsy. *)
Theorem card_price_or_failure (p : ProductCard.props) :
  (ProductCard.is_missing (ProductCard.product p) = true ->
   ProductCard.render p = None) /\
  (ProductCard.valid_child
     (ProductCard.get "category" (ProductCard.item_of (ProductCard.product p))) = false \/
   ProductCard.valid_child
     (ProductCard.get "brand"
        (ProductCard.get "features" (ProductCard.item_of (ProductCard.product p)))) = false \/
   ProductCard.valid_child
     (ProductCard.get "name" (ProductCard.item_of (ProductCard.product p))) = false \/
   ProductCard.valid_child
     (ProductCard.get "description" (ProductCard.item_of (ProductCard.product p))) = false \/
   (ProductCard.truthy_value (ProductCard.bestPrice_of (ProductCard.product p)) = true /\
    ProductCard.valid_child
      (ProductCard.get "retailer" (ProductCard.bestPrice_of (ProductCard.product p)))
    = false) ->
   ProductCard.render p = None) /\
  (ProductCard.truthy_value (ProductCard.bestPrice_of (ProductCard.product p)) = true ->
   ProductCard.is_number
     (ProductCard.get "amount" (ProductCard.bestPrice_of (ProductCard.product p))) = false ->
   ProductCard.is_missing
     (ProductCard.get "amount" (ProductCard.bestPrice_of (ProductCard.product p))) = false \/
   ProductCard.is_number (ProductCard.bestPrice_of (ProductCard.product p)) = false ->
   ProductCard.render p = None) /\
  (forall card, ProductCard.render p = Some card ->
     ProductCard.shown_prices card
     = if ProductCard.truthy_value (ProductCard.bestPrice_of (ProductCard.product p))
       then match ProductCard.get "amount" (ProductCard.bestPrice_of (ProductCard.product p)),
                  ProductCard.bestPrice_of (ProductCard.product p) with
            | ProductCard.VNum a, _ => [a]
            | _, ProductCard.VNum b => [b]
            | _, _ => []
            end
       else []).
Proof.
  split; [| split; [| split]].
  - intros Hm. unfold ProductCard.render. now rewrite Hm.
  - intros Hbad.
    destruct (ProductCard.render p) as [card |] eqn:Hr; [| reflexivity].
    destruct (render_Some_valid p card Hr) as (_ & Hc & Hb & Hn & Hd & Hp).
    destruct Hbad as [H | [H | [H | [H | [Ht H]]]]]; try congruence.
    destruct (Hp Ht) as [_ Hv]. congruence.
  - intros Ht Hnum Hor.
    destruct (ProductCard.render p) as [card |] eqn:Hr; [| reflexivity].
    destruct (render_Some_valid p card Hr) as (_ & _ & _ & _ & _ & Hp).
    destruct (Hp Ht) as [Ha _]. destruct Ha. apply price_amount_None. auto.
  - intros card Hr. rewrite (shown_prices_layout p card Hr).
    destruct (ProductCard.truthy_value _); [| reflexivity].
    unfold ProductCard.price_amount.
    destruct (ProductCard.bestPrice_of (ProductCard.product p)) as [| | | | | | fs];
      cbn [ProductCard.get]; try reflexivity.
    destruct (ProductCard.lookup_field "amount" fs); reflexivity.
Qed.

Lemma card_price_or_failure_witness :
  ProductCard.render Sample.text_price_card = None /\
  (exists card, ProductCard.render Sample.jacket_card = Some card /\
                ProductCard.shown_prices card = [180%Q]).
Proof.
  split.
  - apply (card_price_or_failure Sample.text_price_card).
    + reflexivity.
    + reflexivity.
    + now right.
  - destruct (ProductCard.render Sample.jacket_card) as [card |] eqn:E;
      [| vm_compute in E; discriminate].
    exists card. split; [reflexivity |].
    apply (proj2 (proj2 (proj2 (card_price_or_failure Sample.jacket_card))) card E).
Defined.

(** X18. The card accepts a search result in both shapes: a product given
    flat renders exactly like the same product wrapped in a [product]
    field, provided the flat object has no truthy [product] field of its
    own and its best price is truthy or absent. *)
Theorem flat_and_wrapped_products_render_alike
    (fs : list (string * ProductCard.value))
    (score : option Q) (reason : option jsstring) :
  ProductCard.truthy_value (ProductCard.lookup_field "product" fs) = false ->
  ProductCard.truthy_value (ProductCard.lookup_field "best_price" fs) = true \/
  ProductCard.lookup_field "best_price" fs = ProductCard.VUndefined ->
  ProductCard.render
    {| ProductCard.product := ProductCard.VObj [("product", ProductCard.VObj fs)];
       ProductCard.matchScore := score; ProductCard.matchReason := reason |}
  = ProductCard.render
      {| ProductCard.product := ProductCard.VObj fs;
         ProductCard.matchScore := score; ProductCard.matchReason := reason |}.
Proof.
  intros Hflat Hprice. unfold ProductCard.render. cbn [ProductCard.product].
  assert (Hitem : ProductCard.or_else
                    (ProductCard.get "product" (ProductCard.VObj [("product", ProductCard.VObj fs)]))
                    (ProductCard.VObj [("product", ProductCard.VObj fs)])
                  = ProductCard.VObj fs) by reflexivity.
  assert (Hitem' : ProductCard.or_else
                     (ProductCard.get "product" (ProductCard.VObj fs)) (ProductCard.VObj fs)
                   = ProductCard.VObj fs).
  { unfold ProductCard.or_else. cbn [ProductCard.get]. now rewrite Hflat. }
  assert (Hbp : ProductCard.or_else
                  (ProductCard.get "best_price"
                     (ProductCard.get "product"
                        (ProductCard.VObj [("product", ProductCard.VObj fs)])))
                  (ProductCard.get "best_price"
                     (ProductCard.VObj [("product", ProductCard.VObj fs)]))
                = ProductCard.or_else
                    (ProductCard.get "best_price"
                       (ProductCard.get "product" (ProductCard.VObj fs)))
                    (ProductCard.get "best_price" (ProductCard.VObj fs))).
  { cbn [ProductCard.get]. cbn [ProductCard.lookup_field String.eqb Ascii.eqb Bool.eqb].
    assert (Hnone : ProductCard.get "best_price" (ProductCard.lookup_field "product" fs)
                    = ProductCard.VUndefined).
    { destruct (ProductCard.lookup_field "product" fs); try reflexivity.
      discriminate. }
    rewrite Hnone. unfold ProductCard.or_else at 2. cbn [ProductCard.truthy_value].
    unfold ProductCard.or_else.
    cbn [ProductCard.get].
    destruct Hprice as [Ht | Hu]; [now rewrite Ht | now rewrite Hu]. }
  rewrite Hitem, Hitem', Hbp. reflexivity.
Qed.

Lemma flat_and_wrapped_products_render_alike_witness :
  ProductCard.render
    {| ProductCard.product := ProductCard.VObj [("product", Sample.flat_jacket)];
       ProductCard.matchScore := None; ProductCard.matchReason := None |}
  = ProductCard.render
      {| ProductCard.product := Sample.flat_jacket;
         ProductCard.matchScore := None; ProductCard.matchReason := None |}.
Proof.
  apply (flat_and_wrapped_products_render_alike
           [ ("id", ProductCard.VStr (lit "p-17"));
             ("name", ProductCard.VStr (lit "Red leather jacket"));
             ("category", ProductCard.VStr (lit "jackets"));
             ("best_price", ProductCard.VNum 180) ] None None).
  - reflexivity.
  - left. reflexivity.
Defined.
